(** * Linear regression with gluon: a shallow embedding of the notebook

    The notebook [P02-C02-linear-regression-gluon.ipynb] is a straight-line
    script: it draws a synthetic dataset, wraps it in a batch iterator,
    builds a one-layer model, and runs a two-epoch training loop that keeps
    a moving average of the loss.

    Cells of the notebook are embedded as state-passing functions over the
    notebook's global names ([X], [y], [train_data], [net], [trainer],
    [moving_loss]).  The tensor arithmetic is kept abstract (class [Arith]):
    every structural theorem holds for any interpretation of the arithmetic;
    the exact rationals [Q] are the instance used where an order on the
    numbers is needed and where the embedding is evaluated, and
    [float32_arith] is the rounded arithmetic of the library's tensors. *)

From Stdlib Require Import String.
From Stdlib Require Import List Arith ZArith QArith Lia Lqa Permutation Bool.
From Stdlib Require Import Floats.SpecFloat.
Import ListNotations.

Set Implicit Arguments.
Close Scope Q_scope.
Open Scope nat_scope.

(** ** Scalar arithmetic *)

(** The numbers the notebook computes with: decimal literals of the source
    ([.99], [3.4], ...) are injected by [lit]. *)
Class Arith (F : Type) : Type := {
  lit : Q -> F;
  add : F -> F -> F;
  sub : F -> F -> F;
  mul : F -> F -> F;
  div : F -> F -> F
}.

Definition zero {F} `{Arith F} : F := lit 0.

Definition of_nat {F} `{Arith F} (n : nat) : F := lit (inject_Z (Z.of_nat n)).

(** Exact rational arithmetic. *)
#[export] Instance Q_arith : Arith Q := {
  lit := fun q => q;
  add := Qplus;
  sub := Qminus;
  mul := Qmult;
  div := Qdiv
}.

(** Modelled from the spec: the elementwise arithmetic is the external
    numeric library's.  Its tensors hold IEEE 754 binary32 numbers (the
    library's default type, float32): 24 bits of precision, exponents up
    to 128, every operation rounded to the nearest number, ties to even.
    The operations are those of the Standard Library's specification of
    floating-point arithmetic. *)
Definition float32 : Type := spec_float.

Definition float32_of_Z (z : Z) : float32 := binary_normalize 24 128 z 0 false.

(** A decimal literal, rounded: the quotient of its numerator by its
    denominator.  Both are represented exactly for the literals of the
    notebook, so the quotient is rounded once. *)
Definition float32_lit (q : Q) : float32 :=
  SFdiv 24 128 (float32_of_Z (Qnum q)) (float32_of_Z (Zpos (Qden q))).

Definition float32_arith : Arith float32 := {|
  lit := float32_lit;
  add := SFadd 24 128;
  sub := SFsub 24 128;
  mul := SFmul 24 128;
  div := SFdiv 24 128
|}.

(** Neither an infinity nor a NaN. *)
Definition float32_finite (x : float32) : bool :=
  match x with
  | S754_zero _ | S754_finite _ _ _ => true
  | S754_infinity _ | S754_nan => false
  end.

(** [2 ^ -100], a float32 number: [2 ^ 23 * 2 ^ -123]. *)
Definition float32_tiny : float32 := S754_finite false 8388608 (-123).

(** ** Failure *)

(** The ways a cell can stop with an exception.  [OutOfFuel] is not a Python
    exception: it marks a [for] loop of the embedding that was given too
    small a bound on its number of iterations. *)
Inductive Error : Type :=
| UninitializedParameter (name : string)
| ShapeMismatch
| ZeroBatchSize
| UnboundName (name : string)
| OutOfFuel.

Inductive Result (A : Type) : Type :=
| Ok (a : A)
| Err (e : Error).

Arguments Ok {A} a.
Arguments Err {A} e.

Definition bind {A B} (m : Result A) (k : A -> Result B) : Result B :=
  match m with
  | Ok a => k a
  | Err e => Err e
  end.

Notation "x <- m ;; k" := (bind m (fun x => k))
  (at level 61, m at next level, right associativity).

Definition is_ok {A} (r : Result A) : bool :=
  match r with Ok _ => true | Err _ => false end.

(** ** List helpers *)

(** Rows of [l] at the positions listed in [order] (positions out of range
    are skipped). *)
Definition pick {A} (order : list nat) (l : list A) : list A :=
  flat_map (fun i => match nth_error l i with Some a => [a] | None => [] end) order.

(** [enumerate]-style map: the element and its position. *)
Fixpoint imap_from {A B} (i : nat) (f : nat -> A -> B) (l : list A) : list B :=
  match l with
  | [] => []
  | a :: r => f i a :: imap_from (S i) f r
  end.

Fixpoint map2 {A B C} (f : A -> B -> C) (l : list A) (m : list B) : list C :=
  match l, m with
  | a :: l', b :: m' => f a b :: map2 f l' m'
  | _, _ => []
  end.

Section Notebook.

Variable F : Type.
Context {AF : Arith F}.

(** ** Tensors *)

(** [nd.sum]: all entries added up, left to right. *)
Definition nd_sum (v : list F) : F := fold_left add v zero.

(** Inner product of a feature row with the weight vector. *)
Definition dot (x w : list F) : F := nd_sum (map2 mul x w).

(** ** Random draws *)

(** Modelled from the spec: [nd.random_normal] is the sampler of the
    external numeric library.  Its draws are an explicit stream [rng_draw]
    read at the cursor [rng_pos]; a call consumes as many draws as the shape
    it fills has entries. *)
Record Rng : Type := {
  rng_draw : nat -> F;
  rng_pos : nat
}.

Definition advance (n : nat) (g : Rng) : Rng :=
  {| rng_draw := rng_draw g; rng_pos := rng_pos g + n |}.

(** [nd.random_normal(shape=(n,))] *)
Definition random_normal (n : nat) (g : Rng) : list F * Rng :=
  (map (rng_draw g) (seq (rng_pos g) n), advance n g).

(** [nd.random_normal(shape=(rows,cols))], filled row by row. *)
Definition random_normal2 (rows cols : nat) (g : Rng) : list (list F) * Rng :=
  (map (fun r => map (rng_draw g) (seq (rng_pos g + r * cols) cols)) (seq 0 rows),
   advance (rows * cols) g).

(** ** Build the dataset (cell 3) *)

Definition num_examples : nat := Z.to_nat 10000.
Definition num_inputs : nat := 2.

(** One entry of
    [y = 2 * X[:,0] - 3.4 * X[:,1] + 4.2 + .01 * nd.random_normal(...)]. *)
Definition real_fn (x : list F) (z : F) : F :=
  add (add (sub (mul (lit 2) (nth 0 x zero)) (mul (lit 3.4) (nth 1 x zero)))
           (lit 4.2))
      (mul (lit 0.01) z).

(** [X = nd.random_normal(shape=(10000,2))] *)
Definition make_X (g : Rng) : list (list F) :=
  fst (random_normal2 num_examples num_inputs g).

(** The draws behind the noise term of [y]: the second call of the sampler. *)
Definition noise (g : Rng) : list F :=
  fst (random_normal num_examples (snd (random_normal2 num_examples num_inputs g))).

(** [y = 2 * X[:,0] - 3.4 * X[:,1] + 4.2 + .01 * nd.random_normal(shape=(10000,))] *)
Definition make_y (g : Rng) : list F := map2 real_fn (make_X g) (noise g).

(** The sampler after the dataset cell. *)
Definition rng_after_dataset (g : Rng) : Rng :=
  snd (random_normal num_examples (snd (random_normal2 num_examples num_inputs g))).

(** ** Load the data iterator (cell 4) *)

Definition batch_size : nat := 4.

(** What the iterator yields: [batch.data[0]], [batch.label[0]] and the
    number of rows of the batch that are padding. *)
Record Batch : Type := {
  data : list (list F);
  label : list F;
  pad : nat
}.

(** Modelled from the spec: [mx.io.NDArrayIter] is the batch iterator of the
    external library.  It holds the examples in their current shuffled order,
    slices them into batches of [it_batch_size] rows from the cursor on, and
    fills a last batch that comes out short with rows from the start, so
    that every batch has the fixed size.  Every reset draws a fresh shuffle
    order from [it_shuffle]. *)
Record NDArrayIter : Type := {
  it_rows : list (list F * F);
  it_batch_size : nat;
  it_cursor : nat;
  it_shuffle : nat -> list nat;
  it_resets : nat
}.

(** [mx.io.NDArrayIter(X, y, batch_size, shuffle=True)] *)
Definition NDArrayIter_new (X : list (list F)) (y : list F) (bs : nat)
    (shuffle : nat -> list nat) : NDArrayIter :=
  {| it_rows := pick (shuffle 0) (combine X y);
     it_batch_size := bs;
     it_cursor := 0;
     it_shuffle := shuffle;
     it_resets := 0 |}.

(** [train_data.reset()] *)
Definition reset (it : NDArrayIter) : NDArrayIter :=
  {| it_rows := pick (it_shuffle it (S (it_resets it))) (it_rows it);
     it_batch_size := it_batch_size it;
     it_cursor := 0;
     it_shuffle := it_shuffle it;
     it_resets := S (it_resets it) |}.

(** One step of the iteration protocol: the next batch and the advanced
    iterator, or [None] at exhaustion. *)
Definition next (it : NDArrayIter) : option (Batch * NDArrayIter) :=
  if it_cursor it <? length (it_rows it) then
    let chunk := firstn (it_batch_size it) (skipn (it_cursor it) (it_rows it)) in
    let p := it_batch_size it - length chunk in
    let rows := chunk ++ firstn p (it_rows it) in
    Some ({| data := map fst rows; label := map snd rows; pad := p |},
          {| it_rows := it_rows it;
             it_batch_size := it_batch_size it;
             it_cursor := it_cursor it + it_batch_size it;
             it_shuffle := it_shuffle it;
             it_resets := it_resets it |})
  else None.

(** The batches of the rest of the current pass, [None] when [fuel] calls of
    [next] do not reach exhaustion. *)
Fixpoint pass (fuel : nat) (it : NDArrayIter) : option (list Batch) :=
  match next it with
  | None => Some []
  | Some (b, it') =>
      match fuel with
      | 0 => None
      | S fuel' =>
          match pass fuel' it' with
          | Some bs => Some (b :: bs)
          | None => None
          end
      end
  end.

(** A batch cut out of the rows with no padding. *)
Definition full_batch (bs : nat) (b : Batch) : Prop :=
  pad b = 0 /\ length (data b) = bs /\ length (label b) = bs.

(** The [j]-th slice of [bs] rows, as a batch without padding. *)
Definition slice (bs : nat) (rows : list (list F * F)) (j : nat) : Batch :=
  let chunk := firstn bs (skipn (bs * j) rows) in
  {| data := map fst chunk; label := map snd chunk; pad := 0 |}.

(** Two states of one iterator that differ at most in the cursor. *)
Definition same_source (it it' : NDArrayIter) : Prop :=
  it_rows it' = it_rows it /\ it_batch_size it' = it_batch_size it /\
  it_shuffle it' = it_shuffle it /\ it_resets it' = it_resets it.

(** Every shuffle order the iterator can draw is an arrangement of the [n]
    row positions. *)
Definition valid_shuffle (n : nat) (shuffle : nat -> list nat) : Prop :=
  forall r, Permutation (shuffle r) (seq 0 n).

(** The examples a batch carries that are not padding. *)
Definition batch_rows (b : Batch) : list (list F * F) :=
  firstn (length (data b) - pad b) (combine (data b) (label b)).

(** The states the iterator built by
    [mx.io.NDArrayIter(X, y, batch_size, shuffle=True)] can be in: as
    built, after a reset, after yielding a batch. *)
Inductive iterator_state (X : list (list F)) (y : list F) (shuffle : nat -> list nat)
    : NDArrayIter -> Prop :=
| state_new : iterator_state X y shuffle (NDArrayIter_new X y batch_size shuffle)
| state_reset it :
    iterator_state X y shuffle it -> iterator_state X y shuffle (reset it)
| state_next it b it' :
    iterator_state X y shuffle it -> next it = Some (b, it') ->
    iterator_state X y shuffle it'.

(** ** Define the model (cells 5 to 7) *)

(** Modelled from the spec: the model is one affine layer of the external
    library, [gluon.nn.Dense(1, in_units=2)] inside a [Sequential]; its
    parameters are a weight vector and a bias scalar, absent until
    initialized. *)
Record Dense : Type := {
  in_units : nat;
  weight : option (list F);
  bias : option F
}.

(** [net = gluon.nn.Sequential(); net.add(gluon.nn.Dense(1, in_units=2))] *)
Definition Dense_new (n_in : nat) : Dense :=
  {| in_units := n_in; weight := None; bias := None |}.

(** [net.collect_params().initialize(mx.init.Normal(sigma=1.), ctx=ctx)]:
    every parameter entry is one draw of the sampler. *)
Definition initialize (g : Rng) (d : Dense) : Dense * Rng :=
  let (w, g1) := random_normal (in_units d) g in
  let (b, g2) := random_normal 1 g1 in
  ({| in_units := in_units d; weight := Some w; bias := Some (nth 0 b zero) |}, g2).

(** [net(data)]: [prediction = features . weight + bias] for every row; the
    error of the notebook's text when a parameter has no value yet. *)
Definition forward (d : Dense) (x : list (list F)) : Result (list F) :=
  match weight d, bias d with
  | None, _ => Err (UninitializedParameter "dense1_weight")
  | Some _, None => Err (UninitializedParameter "dense1_bias")
  | Some w, Some b =>
      if forallb (fun row => length row =? in_units d) x
      then Ok (map (fun row => add (dot row w) b) x)
      else Err ShapeMismatch
  end.

(** ** Define loss (cell 8) *)

Definition squared_error (p l : F) : F := mul (sub p l) (sub p l).

(** Modelled from the spec: [gluon.loss.L2Loss] is the loss of the external
    library; per the spec it returns the elementwise squared error of
    predictions and labels of matching shape. *)
Definition L2Loss (output label : list F) : list F :=
  map2 squared_error output label.

(** [loss = gluon.loss.L2Loss()] *)
Definition loss : list F -> list F -> list F := L2Loss.

(** ** Optimizer (cell 9) *)

(** The gradients [mse.backward()] leaves with the parameters. *)
Record Grad : Type := {
  g_weight : list F;
  g_bias : F
}.

(** Modelled from the spec: gradients are computed externally by automatic
    differentiation, from the parameters and the batch of the recorded
    forward pass. *)
Class Autograd : Type := {
  backward : Dense -> list (list F) -> list F -> Grad
}.

(** Modelled from the spec: [gluon.Trainer(..., 'sgd', ...)] is the
    optimizer of the external library; its only configuration is the
    learning rate. *)
Record Trainer : Type := {
  learning_rate : F
}.

(** [param -= learningRate * gradient / batchSize] *)
Definition sgd_update (lr : F) (b : nat) (p g : F) : F :=
  sub p (div (mul lr g) (of_nat b)).

(** [trainer.step(batch_size)]: every parameter entry is updated from the
    gradient entry at its position; a batch size of zero is a division by
    zero. *)
Definition step (t : Trainer) (b : nat) (g : Grad) (d : Dense) : Result Dense :=
  match b with
  | 0 => Err ZeroBatchSize
  | S _ =>
      match weight d, bias d with
      | None, _ => Err (UninitializedParameter "dense1_weight")
      | Some _, None => Err (UninitializedParameter "dense1_bias")
      | Some w, Some c =>
          Ok {| in_units := in_units d;
                weight := Some (imap_from 0
                            (fun j p => sgd_update (learning_rate t) b p
                                          (nth j (g_weight g) zero)) w);
                bias := Some (sgd_update (learning_rate t) b c (g_bias g)) |}
      end
  end.

(** ** Execute training loop (cell 10) *)

Context {AG : Autograd}.

Definition epochs : nat := 2.

(** A line of the progress output:
    [Epoch <e>, batch <i>. Moving avg of loss: <value>]. *)
Record Line : Type := {
  ln_epoch : nat;
  ln_batch : nat;
  ln_moving : F
}.

(** What one turn of the inner loop did: its epoch and index, the batch it
    was given, the predictions [output], the argument it passed to
    [trainer.step], the value of [nd.sum(mse).asscalar()] and the moving
    loss it left. *)
Record Obs : Type := {
  ob_epoch : nat;
  ob_index : nat;
  ob_batch : Batch;
  ob_output : list F;
  ob_step_arg : nat;
  ob_loss_sum : F;
  ob_moving : F
}.

Inductive Event : Type :=
| EvReset (e : nat)
| EvBatch (o : Obs).

(** The global names of the notebook.  [moving_loss] is [None] until its
    first assignment; [trace] records the loop's actions in order and is
    read by nothing in the program. *)
Record Notebook : Type := {
  X : list (list F);
  y : list F;
  train_data : NDArrayIter;
  net : Dense;
  trainer : Trainer;
  moving_loss : option F;
  stdout : list Line;
  trace : list Event
}.

(** [moving_loss = 0.] *)
Definition assign_moving_loss (v : F) (nb : Notebook) : Notebook :=
  {| X := X nb; y := y nb; train_data := train_data nb; net := net nb;
     trainer := trainer nb; moving_loss := Some v; stdout := stdout nb;
     trace := trace nb |}.

Definition set_train_data (it : NDArrayIter) (nb : Notebook) : Notebook :=
  {| X := X nb; y := y nb; train_data := it; net := net nb;
     trainer := trainer nb; moving_loss := moving_loss nb; stdout := stdout nb;
     trace := trace nb |}.

Definition set_net (d : Dense) (nb : Notebook) : Notebook :=
  {| X := X nb; y := y nb; train_data := train_data nb; net := d;
     trainer := trainer nb; moving_loss := moving_loss nb; stdout := stdout nb;
     trace := trace nb |}.

Definition print (l : Line) (nb : Notebook) : Notebook :=
  {| X := X nb; y := y nb; train_data := train_data nb; net := net nb;
     trainer := trainer nb; moving_loss := moving_loss nb;
     stdout := stdout nb ++ [l]; trace := trace nb |}.

Definition record_event (ev : Event) (nb : Notebook) : Notebook :=
  {| X := X nb; y := y nb; train_data := train_data nb; net := net nb;
     trainer := trainer nb; moving_loss := moving_loss nb; stdout := stdout nb;
     trace := trace nb ++ [ev] |}.

(** Reading the name [moving_loss]. *)
Definition read_moving_loss (nb : Notebook) : Result F :=
  match moving_loss nb with
  | Some m => Ok m
  | None => Err (UnboundName "moving_loss")
  end.

(** The body of [for i, batch in enumerate(train_data)] in epoch [e].
    [as_in_context(ctx)] and [reshape((-1,1))] leave the entries of the
    batch as they are; the recording scope [autograd.record()] is what makes
    the gradients of this forward pass available to [backward]. *)
Definition batch_body (e i : nat) (batch : Batch) (nb : Notebook) : Result Notebook :=
  let data_ := data batch in
  let label_ := label batch in
  output <- forward (net nb) data_ ;;
  let mse := loss output label_ in
  let grads := backward (net nb) data_ label_ in
  net' <- step (trainer nb) (length data_) grads (net nb) ;;
  let nb := set_net net' nb in
  m <- read_moving_loss nb ;;
  let m' := add (mul (lit 0.99) m) (mul (lit 0.01) (nd_sum mse)) in
  let nb := assign_moving_loss m' nb in
  let nb := record_event
              (EvBatch {| ob_epoch := e; ob_index := i; ob_batch := batch;
                          ob_output := output; ob_step_arg := length data_;
                          ob_loss_sum := nd_sum mse; ob_moving := m' |}) nb in
  Ok (if i mod 500 =? 0
      then print {| ln_epoch := e; ln_batch := i; ln_moving := m' |} nb
      else nb).

(** [for i, batch in enumerate(train_data): ...], counting from [i]; [fuel]
    bounds the number of turns. *)
Fixpoint for_batches (fuel i : nat) (e : nat) (nb : Notebook) : Result Notebook :=
  match next (train_data nb) with
  | None => Ok nb
  | Some (batch, it') =>
      match fuel with
      | 0 => Err OutOfFuel
      | S fuel' =>
          nb' <- batch_body e i batch (set_train_data it' nb) ;;
          for_batches fuel' (S i) e nb'
      end
  end.

(** The body of [for e in range(epochs)]. *)
Definition epoch_body (fuel e : nat) (nb : Notebook) : Result Notebook :=
  let nb := assign_moving_loss zero nb in
  let nb := record_event (EvReset e) (set_train_data (reset (train_data nb)) nb) in
  for_batches fuel 0 e nb.

Fixpoint for_epochs (fuel : nat) (es : list nat) (nb : Notebook) : Result Notebook :=
  match es with
  | [] => Ok nb
  | e :: es' => nb' <- epoch_body fuel e nb ;; for_epochs fuel es' nb'
  end.

(** Cell 10: [epochs = 2; for e in range(epochs): ...]. *)
Definition train (fuel : nat) (nb : Notebook) : Result Notebook :=
  for_epochs fuel (seq 0 epochs) nb.

(** ** The notebook, top to bottom *)

(** The names as cells 3 to 9 leave them; [initialized] tells whether the
    initialization cell was run. *)
Definition setup (initialized : bool) (g : Rng) (shuffle : nat -> list nat) : Notebook :=
  let X_ := make_X g in
  let y_ := make_y g in
  let net_ := Dense_new num_inputs in
  {| X := X_;
     y := y_;
     train_data := NDArrayIter_new X_ y_ batch_size shuffle;
     net := if initialized then fst (initialize (rng_after_dataset g) net_) else net_;
     trainer := {| learning_rate := lit 0.1 |};
     moving_loss := None;
     stdout := [];
     trace := [] |}.

Definition notebook (fuel : nat) (g : Rng) (shuffle : nat -> list nat) : Result Notebook :=
  train fuel (setup true g shuffle).

(** The batch observations of a trace, in order. *)
Definition observations (t : list Event) : list Obs :=
  flat_map (fun ev => match ev with EvBatch o => [o] | EvReset _ => [] end) t.

(** The observations of epoch [e]. *)
Definition epoch_observations (e : nat) (t : list Event) : list Obs :=
  filter (fun o => ob_epoch o =? e) (observations t).

(** ** Vocabulary of the statements *)

(** Both parameters of the layer have values. *)
Definition is_initialized (d : Dense) : bool :=
  match weight d, bias d with
  | Some _, Some _ => true
  | _, _ => false
  end.

(** A non-empty batch whose feature rows have [n_in] entries. *)
Definition batch_fits (n_in : nat) (b : Batch) : Prop :=
  data b <> [] /\ Forall (fun row => length row = n_in) (data b).

(** The moving-average recurrence along the observations of an inner loop
    entered with moving loss [m]. *)
Fixpoint ema_chain (m : F) (obs : list Obs) : Prop :=
  match obs with
  | [] => True
  | o :: rest =>
      ob_moving o = add (mul (lit 0.99) m) (mul (lit 0.01) (ob_loss_sum o)) /\
      ema_chain (ob_moving o) rest
  end.

(** An observation of epoch [e] is coherent: the step argument is the
    number of rows of the batch, the predictions are the model's on the
    batch, and the loss sum adds up the per-example losses. *)
Definition obs_ok (e : nat) (o : Obs) : Prop :=
  ob_epoch o = e /\
  ob_step_arg o = length (data (ob_batch o)) /\
  (exists d, is_initialized d = true /\
             forward d (data (ob_batch o)) = Ok (ob_output o)) /\
  ob_loss_sum o = nd_sum (loss (ob_output o) (label (ob_batch o))).

(** The state in which the inner loop of epoch [e] is entered. *)
Definition epoch_entry (e : nat) (nb : Notebook) : Notebook :=
  record_event (EvReset e)
    (set_train_data (reset (train_data nb)) (assign_moving_loss zero nb)).

(** The progress line an observation prints, if it prints one. *)
Definition line_of (o : Obs) : list Line :=
  if ob_index o mod 500 =? 0
  then [{| ln_epoch := ob_epoch o; ln_batch := ob_index o; ln_moving := ob_moving o |}]
  else [].

(** What a run of the inner loop over the batches [bsl], entered in state
    [nb] with moving loss [m] and counting from [i], leaves in [nb']. *)
Record loop_run (e i : nat) (m : F) (bsl : list Batch) (nb nb' : Notebook)
    (obs : list Obs) : Prop := {
  lr_trace : trace nb' = trace nb ++ map EvBatch obs;
  lr_stdout : stdout nb' = stdout nb ++ flat_map line_of obs;
  lr_batches : map ob_batch obs = bsl;
  lr_indices : map ob_index obs = seq i (length bsl);
  lr_obs : Forall (obs_ok e) obs;
  lr_chain : ema_chain m obs;
  lr_moving : moving_loss nb' = Some (last (map ob_moving obs) m);
  lr_X : X nb' = X nb;
  lr_y : y nb' = y nb;
  lr_trainer : trainer nb' = trainer nb;
  lr_net : is_initialized (net nb') = true;
  lr_units : in_units (net nb') = in_units (net nb)
}.

(** The state is ready for an epoch over [n] rows in batches of [bs]: the
    parameters have values, every feature row has as many entries as the
    layer has inputs, and the iterator shuffles [n] rows. *)
Record ready (n bs : nat) (nb : Notebook) : Prop := {
  rd_net : is_initialized (net nb) = true;
  rd_batch_size : it_batch_size (train_data nb) = bs;
  rd_rows : length (it_rows (train_data nb)) = n;
  rd_shuffle : valid_shuffle n (it_shuffle (train_data nb));
  rd_fits : Forall (fun r => length (fst r) = in_units (net nb))
              (it_rows (train_data nb))
}.

(** Epoch [e], run from [nb], ends in [nb'] after the turns [obs]: the
    iterator was reset, its whole pass of [k] unpadded batches of [bs] rows
    was consumed in order, and the moving loss restarted from zero. *)
Record epoch_run (e k bs : nat) (nb nb' : Notebook) (obs : list Obs) : Prop := {
  er_loop : loop_run e 0 zero (map ob_batch obs) (epoch_entry e nb) nb' obs;
  er_pass : pass k (reset (train_data nb)) = Some (map ob_batch obs);
  er_count : length obs = k;
  er_full : Forall (full_batch bs) (map ob_batch obs);
  er_cover : Permutation (concat (map batch_rows (map ob_batch obs)))
               (it_rows (train_data nb));
  er_rows : Permutation (it_rows (train_data nb')) (it_rows (train_data nb));
  er_exhausted : next (train_data nb') = None;
  er_resets : it_resets (train_data nb') = S (it_resets (train_data nb))
}.

End Notebook.


(** ** Concrete inputs *)

(** Modelled from the spec: an instance of the external gradient
    computation, the gradient of the summed squared error of the affine
    model with respect to its weight entries and its bias. *)
Definition analytic_backward {F} `{Arith F} (d : Dense F) (x : list (list F))
    (l : list F) : Grad F :=
  match forward d x with
  | Ok out =>
      let r := map2 (fun o t => mul (lit 2) (sub o t)) out l in
      {| g_weight := map (fun j => nd_sum (map2 (fun ri row => mul ri (nth j row zero)) r x))
                         (seq 0 (in_units d));
         g_bias := nd_sum r |}
  | Err _ => {| g_weight := []; g_bias := zero |}
  end.

Definition analytic_autograd : Autograd Q := {| backward := analytic_backward |}.

(** The shuffle that leaves the rows where they are. *)
Definition identity_shuffle (r : nat) : list nat := seq 0 num_examples.

(** A stream of draws in which every feature is 0 and the noise draws
    alternate between 1 and -1; the draws after the dataset's initialize
    the parameters. *)
Definition alternating_draws : Rng Q :=
  {| rng_draw := fun i => if i <? num_examples * num_inputs then 0%Q
                          else if Nat.even i then 1%Q else (-1)%Q;
     rng_pos := 0 |}.

(** The batch every slice of four consecutive examples of the dataset drawn
    from [alternating_draws] is. *)
Definition alternating_batch : Batch Q :=
  {| data := repeat [0%Q; 0%Q] 4;
     label := [real_fn [0%Q; 0%Q] 1%Q; real_fn [0%Q; 0%Q] (-1)%Q;
               real_fn [0%Q; 0%Q] 1%Q; real_fn [0%Q; 0%Q] (-1)%Q];
     pad := 0 |}.

(** The examples of the dataset drawn from [alternating_draws]. *)
Definition alternating_rows : list (list Q * Q) :=
  combine (make_X alternating_draws) (make_y alternating_draws).

(** An iterator over these examples that a pass has used up: its cursor is
    behind the last row. *)
Definition spent_iterator : NDArrayIter Q :=
  {| it_rows := alternating_rows;
     it_batch_size := batch_size;
     it_cursor := num_examples;
     it_shuffle := identity_shuffle;
     it_resets := 1 |}.

(** Exact rational arithmetic with every result in lowest terms, for
    running the embedding. *)
Definition Qred_arith : Arith Q := {|
  lit := fun q => q;
  add := fun a b => Qred (Qplus a b);
  sub := fun a b => Qred (Qminus a b);
  mul := fun a b => Qred (Qmult a b);
  div := fun a b => Qred (Qdiv a b)
|}.

Definition reduced_autograd : Autograd Q :=
  {| backward := @analytic_backward Q Qred_arith |}.

(** A notebook state small enough to run by hand: four examples with
    noise-free labels, batches of two, parameters at zero, rows left in
    place. *)
Definition tiny_X : list (list Q) := [[1; 0]; [0; 1]; [1; 1]; [0; 0]]%Q.

Definition tiny_notebook : Notebook Q :=
  {| X := tiny_X;
     y := map (fun x => real_fn x 0%Q) tiny_X;
     train_data := NDArrayIter_new tiny_X (map (fun x => real_fn x 0%Q) tiny_X) 2
                     (fun _ => seq 0 4);
     net := {| in_units := 2; weight := Some [0; 0]%Q; bias := Some 0%Q |};
     trainer := {| learning_rate := 0.1%Q |};
     moving_loss := None;
     stdout := [];
     trace := [] |}.

(** Epoch, index, step argument, loss sum and moving loss of every turn of
    a run. *)
Definition summary (r : Result (Notebook Q)) : list (nat * nat * nat * Q * Q) :=
  match r with
  | Ok nb => map (fun o => (ob_epoch o, ob_index o, ob_step_arg o,
                            ob_loss_sum o, ob_moving o))
                 (observations (trace nb))
  | Err _ => []
  end.

(** An iterator over three examples in batches of two. *)
Definition odd_iterator : NDArrayIter Q :=
  NDArrayIter_new (firstn 3 tiny_X) [1; 2; 3]%Q 2 (fun _ => seq 0 3).

(** ** Vocabulary of the further properties *)

Section Turns.

Variable F : Type.
Context {AF : Arith F} {AG : Autograd F}.

(** What one turn of the loop body does to the parameters: the forward
    pass has to succeed, then the optimizer steps with the gradients of
    that pass and the number of rows of the batch. *)
Definition sgd_turn (t : Trainer F) (d : Dense F) (b : Batch F) : Result (Dense F) :=
  _ <- forward d (data b) ;;
  step t (length (data b)) (backward d (data b) (label b)) d.

(** The turns of [sgd_turn] over a list of batches, one after the other. *)
Fixpoint replay (t : Trainer F) (d : Dense F) (bsl : list (Batch F)) : Result (Dense F) :=
  match bsl with
  | [] => Ok d
  | b :: rest => d' <- sgd_turn t d b ;; replay t d' rest
  end.

(** The same turns when every call of [trainer.step] is passed the number
    [n] instead: the forward pass has to succeed, then the optimizer steps
    with the gradients of that pass and the argument [n]. *)
Fixpoint replay_with (n : nat) (t : Trainer F) (d : Dense F) (bsl : list (Batch F))
    : Result (Dense F) :=
  match bsl with
  | [] => Ok d
  | b :: rest =>
      _ <- forward d (data b) ;;
      d' <- step t n (backward d (data b) (label b)) d ;;
      replay_with n t d' rest
  end.

(** The predictions made along [replay]: for every batch, those of the
    parameters as the turns before it left them. *)
Fixpoint replay_outputs (t : Trainer F) (d : Dense F) (bsl : list (Batch F))
    : Result (list (list F)) :=
  match bsl with
  | [] => Ok []
  | b :: rest =>
      out <- forward d (data b) ;;
      d' <- sgd_turn t d b ;;
      outs <- replay_outputs t d' rest ;;
      Ok (out :: outs)
  end.

(** What any completed run of the inner loop, from [nb] to [nb'] with the
    turns [obs], has done. *)
Record loop_effect (e i : nat) (nb nb' : Notebook F) (obs : list (Obs F)) : Prop := {
  le_trace : trace nb' = trace nb ++ map (@EvBatch F) obs;
  le_stdout : stdout nb' = stdout nb ++ flat_map (@line_of F) obs;
  le_X : X nb' = X nb;
  le_y : y nb' = y nb;
  le_trainer : trainer nb' = trainer nb;
  le_units : in_units (net nb') = in_units (net nb);
  le_net : replay (trainer nb) (net nb) (map (@ob_batch F) obs) = Ok (net nb');
  le_outputs : replay_outputs (trainer nb) (net nb) (map (@ob_batch F) obs)
               = Ok (map (@ob_output F) obs);
  le_indices : map (@ob_index F) obs = seq i (length obs);
  le_each : Forall (fun o => ob_epoch o = e /\
                             ob_step_arg o = length (data (ob_batch o)) /\
                             ob_loss_sum o
                               = nd_sum (loss (ob_output o) (label (ob_batch o)))) obs;
  le_moving : match obs with
              | [] => moving_loss nb' = moving_loss nb
              | _ :: _ => exists m, moving_loss nb = Some m /\
                                    ema_chain m obs /\
                                    moving_loss nb' = Some (last (map (@ob_moving F) obs) m)
              end;
  le_source : same_source (train_data nb) (train_data nb');
  le_exhausted : next (train_data nb') = None
}.

End Turns.

(** [0.99 ^ n], the weight the moving average leaves after [n] turns to
    what it held before. *)
Fixpoint decay (n : nat) : Q :=
  match n with
  | 0 => 1%Q
  | S k => (0.99 * decay k)%Q
  end.

(** The moving average of the loss sums [ss] (oldest first), started from
    0, written out: every sum enters with weight [0.01] and is multiplied
    by [0.99] once for every later turn. *)
Fixpoint weighted (ss : list Q) : Q :=
  match ss with
  | [] => 0%Q
  | s :: rest => (0.01 * decay (length rest) * s + weighted rest)%Q
  end.

(** The parameters of the function the labels are generated from. *)
Definition true_net : Dense Q :=
  {| in_units := 2; weight := Some [2; -3.4]%Q; bias := Some 4.2%Q |}.

(** A notebook state whose dataset is empty and whose model was never
    initialized. *)
Definition empty_notebook : Notebook Q :=
  {| X := [];
     y := [];
     train_data := NDArrayIter_new [] [] 4 (fun _ => []);
     net := Dense_new Q 2;
     trainer := {| learning_rate := 0.1%Q |};
     moving_loss := None;
     stdout := [];
     trace := [] |}.

(** A notebook state over three examples in batches of two. *)
Definition odd_notebook : Notebook Q :=
  {| X := firstn 3 tiny_X;
     y := [1; 2; 3]%Q;
     train_data := odd_iterator;
     net := {| in_units := 2; weight := Some [0; 0]%Q; bias := Some 0%Q |};
     trainer := {| learning_rate := 0.1%Q |};
     moving_loss := None;
     stdout := [];
     trace := [] |}.
(** * Properties *)

Unset Implicit Arguments.

(** ** Lists *)

Lemma pick_seq_from {A} (l pre : list A) :
  pick (seq (length pre) (length l)) (pre ++ l) = l.
Proof.
  revert pre; induction l as [|a r IH]; intros pre; [reflexivity|].
  cbn [length seq]. unfold pick in *. cbn [flat_map].
  rewrite nth_error_app2 by lia. rewrite Nat.sub_diag. cbn [nth_error app].
  f_equal.
  specialize (IH (pre ++ [a])).
  rewrite length_app, <- app_assoc in IH. cbn [length app] in IH.
  rewrite Nat.add_1_r in IH. exact IH.
Qed.

Lemma pick_seq {A} (l : list A) : pick (seq 0 (length l)) l = l.
Proof. exact (pick_seq_from l []). Qed.

Lemma pick_permutation {A} (order : list nat) (l : list A) :
  Permutation order (seq 0 (length l)) -> Permutation (pick order l) l.
Proof.
  intros HP. rewrite <- (pick_seq l) at 2.
  unfold pick. apply Permutation_flat_map, HP.
Qed.

Lemma combine_map_fst_snd {A B} (l : list (A * B)) :
  combine (map fst l) (map snd l) = l.
Proof.
  induction l as [|[a b] r IH]; cbn; [reflexivity | now rewrite IH].
Qed.

Lemma map2_length {A B C} (f : A -> B -> C) (l : list A) (m : list B) :
  length (map2 f l m) = Nat.min (length l) (length m).
Proof.
  revert m; induction l as [|a l IH]; intros [|b m]; cbn; auto.
Qed.

Lemma map2_nth {A B C} (f : A -> B -> C) (l : list A) (m : list B) i a b c :
  i < length l -> i < length m ->
  nth i (map2 f l m) c = f (nth i l a) (nth i m b).
Proof.
  revert m i; induction l as [|x l IH]; intros [|z m] [|i]; cbn; intros; try lia; auto.
  apply IH; lia.
Qed.

Lemma last_cons {A} (a d : A) (l : list A) : last (a :: l) d = last l a.
Proof.
  revert a d; induction l as [|x l IH]; intros a d; [reflexivity|].
  change (last (a :: x :: l) d) with (last (x :: l) d).
  now rewrite !IH.
Qed.

Lemma In_firstn {A} n (l : list A) x : In x (firstn n l) -> In x l.
Proof.
  intros H. rewrite <- (firstn_skipn n l). apply in_or_app. now left.
Qed.

Lemma In_skipn {A} n (l : list A) x : In x (skipn n l) -> In x l.
Proof.
  intros H. rewrite <- (firstn_skipn n l). apply in_or_app. now right.
Qed.

Lemma filter_keep_all {A} (f : A -> bool) (l : list A) :
  Forall (fun a => f a = true) l -> filter f l = l.
Proof.
  induction 1 as [|a l Ha _ IH]; cbn; [reflexivity | now rewrite Ha, IH].
Qed.

Lemma filter_drop_all {A} (f : A -> bool) (l : list A) :
  Forall (fun a => f a = false) l -> filter f l = [].
Proof.
  induction 1 as [|a l Ha _ IH]; cbn; [reflexivity | now rewrite Ha, IH].
Qed.

Lemma map_fst_combine {A B} (l : list A) (m : list B) :
  length l = length m -> map fst (combine l m) = l.
Proof.
  revert m; induction l as [|a l IH]; intros [|b m]; cbn; intros H;
    try discriminate; [reflexivity|].
  f_equal. apply IH. lia.
Qed.

Lemma nth_map_seq {A} (f : nat -> A) n i d :
  i < n -> nth i (map f (seq 0 n)) d = f i.
Proof.
  intros Hi. rewrite (nth_indep _ d (f 0)) by now rewrite length_map, length_seq.
  rewrite map_nth, seq_nth by assumption. reflexivity.
Qed.

Lemma skipn_nth_cons {A} (l : list A) n d :
  n < length l -> skipn n l = nth n l d :: skipn (S n) l.
Proof.
  revert n; induction l as [|a l IH]; intros [|n] Hn; cbn in *; try lia; auto.
  apply IH. lia.
Qed.

Lemma firstn_skipn_nths {A} (l : list A) d k : forall n,
  n + k <= length l ->
  firstn k (skipn n l) = map (fun i => nth i l d) (seq n k).
Proof.
  induction k as [|k IH]; intros n Hn; [reflexivity|].
  rewrite (skipn_nth_cons l n d) by lia. cbn [firstn seq map].
  f_equal. apply IH. lia.
Qed.

Lemma imap_from_length {A B} (f : nat -> A -> B) (l : list A) i :
  length (imap_from i f l) = length l.
Proof.
  revert i; induction l as [|a l IH]; intros i; cbn; auto.
Qed.

Lemma imap_from_nth {A B} (f : nat -> A -> B) (l : list A) i j a b :
  j < length l -> nth j (imap_from i f l) b = f (i + j) (nth j l a).
Proof.
  revert i j; induction l as [|x l IH]; intros i [|j]; cbn; intros; try lia.
  - now rewrite Nat.add_0_r.
  - rewrite (IH (S i) j) by lia. f_equal. lia.
Qed.

(** ** The batch iterator *)

Section IteratorFacts.

Context {F : Type}.

Implicit Types (it : NDArrayIter F) (b : Batch F).

Lemma next_exhausted it :
  length (it_rows it) <= it_cursor it -> next it = None.
Proof.
  intros H. unfold next.
  destruct (Nat.ltb_spec (it_cursor it) (length (it_rows it))); [lia | reflexivity].
Qed.

Lemma next_inside it bs j k :
  it_batch_size it = bs -> 0 < bs ->
  it_cursor it = bs * j -> length (it_rows it) = bs * (j + S k) ->
  exists b it',
    next it = Some (b, it') /\
    full_batch bs b /\
    batch_rows b = firstn bs (skipn (bs * j) (it_rows it)) /\
    it_rows it' = it_rows it /\ it_batch_size it' = bs /\
    it_cursor it' = bs * S j /\
    it_shuffle it' = it_shuffle it /\ it_resets it' = it_resets it.
Proof.
  intros Hbs Hpos Hcur Hlen.
  assert (Hchunk : length (firstn bs (skipn (bs * j) (it_rows it))) = bs).
  { rewrite length_firstn, length_skipn, Hlen. nia. }
  unfold next. rewrite Hbs, Hcur.
  destruct (Nat.ltb_spec (bs * j) (length (it_rows it))) as [_|Hge]; [|nia].
  rewrite Hchunk, Nat.sub_diag. cbn [firstn]. rewrite app_nil_r.
  eexists _, _. split; [reflexivity|].
  unfold full_batch, batch_rows; cbn.
  rewrite !length_map, Hchunk, Nat.sub_0_r, combine_map_fst_snd.
  repeat split; auto; try lia.
  rewrite firstn_firstn. f_equal. lia.
Qed.

Lemma next_same_source it b it' :
  next it = Some (b, it') -> same_source it it'.
Proof.
  unfold next. destruct (it_cursor it <? length (it_rows it)); [|discriminate].
  intros H; injection H as _ <-. repeat split.
Qed.

(** When the batch size divides the number of rows, a pass from cursor
    [bs * j] yields the remaining [k] slices, none of them padded. *)
Lemma pass_divisible bs k : forall fuel it j,
  it_batch_size it = bs -> 0 < bs ->
  it_cursor it = bs * j -> length (it_rows it) = bs * (j + k) ->
  k <= fuel ->
  exists bsl,
    pass fuel it = Some bsl /\
    length bsl = k /\
    Forall (full_batch bs) bsl /\
    concat (map (@batch_rows F) bsl) = skipn (bs * j) (it_rows it).
Proof.
  induction k as [|k IH]; intros fuel it j Hbs Hpos Hcur Hlen Hfuel.
  - exists []. rewrite Nat.add_0_r in Hlen.
    assert (Hn : next it = None) by (apply next_exhausted; lia).
    repeat split; auto.
    + destruct fuel; cbn; now rewrite Hn.
    + cbn. rewrite <- Hlen. now rewrite skipn_all.
  - destruct fuel as [|fuel]; [lia|].
    destruct (next_inside it bs j k Hbs Hpos Hcur Hlen)
      as (b & it' & Hn & Hfull & Hrows & Hr' & Hbs' & Hcur' & _ & _).
    destruct (IH fuel it' (S j)) as (bsl & Hp & Hl & Hall & Hcat); auto; try lia.
    { rewrite Hr', Hlen. f_equal. lia. }
    exists (b :: bsl). cbn [pass]. rewrite Hn, Hp.
    repeat split; cbn; auto.
    rewrite Hrows, Hcat, Hr'.
    replace (bs * S j) with (bs + bs * j) by lia.
    rewrite <- skipn_skipn. apply firstn_skipn.
Qed.

(** In the divisible case the batches of a pass are the successive slices
    of the rows. *)
Lemma pass_slices bs k : forall fuel it j,
  it_batch_size it = bs -> 0 < bs ->
  it_cursor it = bs * j -> length (it_rows it) = bs * (j + k) ->
  k <= fuel ->
  pass fuel it = Some (map (slice bs (it_rows it)) (seq j k)).
Proof.
  induction k as [|k IH]; intros fuel it j Hbs Hpos Hcur Hlen Hfuel.
  - rewrite Nat.add_0_r in Hlen.
    assert (Hn : next it = None) by (apply next_exhausted; lia).
    destruct fuel; cbn; now rewrite Hn.
  - destruct fuel as [|fuel]; [lia|].
    assert (Hchunk : length (firstn bs (skipn (bs * j) (it_rows it))) = bs).
    { rewrite length_firstn, length_skipn, Hlen. nia. }
    cbn [pass seq map]. unfold next at 1. rewrite Hbs, Hcur.
    destruct (Nat.ltb_spec (bs * j) (length (it_rows it))) as [_|Hge]; [|nia].
    rewrite Hchunk, Nat.sub_diag. cbn [firstn]. rewrite app_nil_r.
    rewrite (IH fuel _ (S j)); cbn [it_rows it_batch_size it_cursor]; auto; lia.
Qed.

Lemma next_fits it b it' n :
  next it = Some (b, it') -> 0 < it_batch_size it ->
  Forall (fun r => length (fst r) = n) (it_rows it) ->
  batch_fits n b.
Proof.
  unfold next.
  destruct (Nat.ltb_spec (it_cursor it) (length (it_rows it))) as [Hlt|]; [|discriminate].
  intros H Hpos Hrows. injection H as <- _. unfold batch_fits; cbn [data].
  split.
  - intros Hnil. apply (f_equal (@length _)) in Hnil.
    rewrite length_map, length_app, length_firstn, length_skipn in Hnil.
    cbn in Hnil. lia.
  - apply Forall_map, Forall_app. split.
    + eapply incl_Forall; [|exact Hrows].
      intros r Hr. apply In_firstn, In_skipn in Hr. exact Hr.
    + eapply incl_Forall; [|exact Hrows].
      intros r Hr. apply In_firstn in Hr. exact Hr.
Qed.

Lemma pass_fits n : forall fuel it bsl,
  pass fuel it = Some bsl -> 0 < it_batch_size it ->
  Forall (fun r => length (fst r) = n) (it_rows it) ->
  Forall (batch_fits n) bsl.
Proof.
  induction fuel as [|fuel IH]; intros it bsl Hp Hpos Hrows; cbn in Hp;
    destruct (next it) as [[b it']|] eqn:Hn; try discriminate;
    try (injection Hp as <-; constructor).
  destruct (pass fuel it') as [bsl'|] eqn:Hp'; [|discriminate].
  injection Hp as <-.
  destruct (next_same_source _ _ _ Hn) as (Hr & Hb & _ & _).
  constructor.
  - eapply next_fits; eauto.
  - apply (IH it'); auto; [now rewrite Hb | now rewrite Hr].
Qed.

Lemma pass_more_fuel : forall fuel fuel' it bsl,
  pass fuel it = Some bsl -> fuel <= fuel' -> pass fuel' it = Some bsl.
Proof.
  induction fuel as [|fuel IH]; intros fuel' it bsl Hp Hle.
  - cbn in Hp. destruct (next it) as [[b it']|] eqn:Hn; [discriminate|].
    destruct fuel'; cbn; now rewrite Hn.
  - destruct fuel' as [|fuel']; [lia|]. cbn in *.
    destruct (next it) as [[b it']|]; [|exact Hp].
    destruct (pass fuel it') as [bsl'|] eqn:Hp'; [|discriminate].
    rewrite (IH fuel' it' bsl' Hp'); [exact Hp | lia].
Qed.

Lemma full_batch_features bs b :
  full_batch bs b -> map fst (batch_rows b) = data b.
Proof.
  intros (Hp & Hd & Hl). unfold batch_rows. rewrite Hp, Nat.sub_0_r.
  rewrite firstn_all2 by (rewrite length_combine; lia).
  apply map_fst_combine. congruence.
Qed.

Lemma full_batches_features bs (bsl : list (Batch F)) :
  Forall (full_batch bs) bsl ->
  concat (map (@data F) bsl) = map fst (concat (map (@batch_rows F) bsl)).
Proof.
  induction 1 as [|b bsl Hb _ IH]; cbn; [reflexivity|].
  now rewrite map_app, <- IH, (full_batch_features bs b Hb).
Qed.

Lemma reset_rows it n :
  length (it_rows it) = n -> valid_shuffle n (it_shuffle it) ->
  Permutation (it_rows (reset it)) (it_rows it).
Proof.
  intros Hlen Hv. cbn. apply pick_permutation. rewrite Hlen. apply Hv.
Qed.

(** C5.  Whatever state the iterator is in (before its first pass, in the
    middle of a pass, or used up by the pass before) and whatever the
    shuffle orders, as long as it holds the 10000 examples of the dataset
    in some order and cuts batches of 4: the pass that starts with a reset
    and runs to exhaustion yields 2500 batches of 4 rows, none of them
    padding, whose feature rows taken together are the feature rows of the
    dataset, each as often as the dataset has it; the same holds of the
    examples (feature row and label).  Every state the notebook's iterator
    can reach by resets and yielded batches is such a state. *)
Theorem full_pass_yields_each_row_once (X : list (list F)) (y : list F) :
  length X = num_examples -> length y = num_examples ->
  (forall it,
     Permutation (it_rows it) (combine X y) ->
     it_batch_size it = batch_size ->
     valid_shuffle num_examples (it_shuffle it) ->
     exists bsl,
       pass 2500 (reset it) = Some bsl /\
       length bsl = 2500 /\
       Forall (full_batch batch_size) bsl /\
       Permutation (concat (map (@data F) bsl)) X /\
       Permutation (concat (map (@batch_rows F) bsl)) (combine X y)) /\
  (forall shuffle it,
     valid_shuffle num_examples shuffle ->
     iterator_state X y shuffle it ->
     Permutation (it_rows it) (combine X y) /\
     it_batch_size it = batch_size /\
     it_shuffle it = shuffle).
Proof.
  intros HX Hy.
  assert (Hlen : length (combine X y) = num_examples).
  { rewrite length_combine, HX, Hy. apply Nat.min_id. }
  split.
  - intros it Hp Hb Hv.
    assert (Hreset : Permutation (it_rows (reset it)) (combine X y)).
    { eapply Permutation_trans; [|exact Hp]. apply (reset_rows it num_examples).
      - rewrite (Permutation_length Hp). exact Hlen.
      - exact Hv. }
    destruct (pass_divisible batch_size 2500 2500 (reset it) 0)
      as (bsl & Hpass & Hcount & Hfull & Hcat); auto.
    + unfold batch_size; lia.
    + rewrite (Permutation_length Hreset). exact Hlen.
    + exists bsl. rewrite Nat.mul_0_r, skipn_0 in Hcat.
      split; [exact Hpass|]. split; [exact Hcount|]. split; [exact Hfull|]. split.
      * rewrite (full_batches_features _ _ Hfull), Hcat, Hreset.
        now rewrite map_fst_combine by congruence.
      * now rewrite Hcat.
  - intros shuffle it Hv Hs.
    induction Hs as [|it Hs (IHp & IHb & IHs)|it b it' Hs (IHp & IHb & IHs) Hn].
    + repeat split. cbn [NDArrayIter_new it_rows].
      apply pick_permutation. rewrite Hlen. apply Hv.
    + repeat split; auto.
      eapply Permutation_trans; [|exact IHp]. apply (reset_rows it num_examples).
      * rewrite (Permutation_length IHp). exact Hlen.
      * rewrite IHs. exact Hv.
    + destruct (next_same_source _ _ _ Hn) as (Hr & Hb & Hsh & _).
      repeat split; congruence.
Qed.

End IteratorFacts.

(** ** The training loop *)

Section LoopFacts.

Context {F : Type} {AF : Arith F} {AG : Autograd F}.

Implicit Types (nb : Notebook F) (b : Batch F) (d : Dense F).

Lemma forward_ok d x :
  is_initialized d = true ->
  Forall (fun row => length row = in_units d) x ->
  exists out, forward d x = Ok out /\ length out = length x.
Proof.
  unfold is_initialized, forward. intros Hi Hx.
  destruct (weight d) as [w|]; [|discriminate].
  destruct (bias d) as [c|]; [|discriminate].
  assert (Hall : forallb (fun row => length row =? in_units d) x = true).
  { apply forallb_forall. intros row Hin.
    rewrite Forall_forall in Hx. apply Nat.eqb_eq. auto. }
  rewrite Hall. eexists; split; [reflexivity|]. apply length_map.
Qed.

Lemma step_ok (t : Trainer F) n g d :
  is_initialized d = true -> 0 < n ->
  exists d', step t n g d = Ok d' /\
             is_initialized d' = true /\ in_units d' = in_units d.
Proof.
  unfold is_initialized, step. intros Hi Hn.
  destruct n as [|n]; [lia|].
  destruct (weight d) as [w|]; [|discriminate].
  destruct (bias d) as [c|]; [|discriminate].
  eexists; split; [reflexivity|]. cbn. auto.
Qed.

(** One turn of the inner loop on a fitting batch. *)
Lemma batch_body_ok e i b nb m :
  is_initialized (net nb) = true ->
  batch_fits (in_units (net nb)) b ->
  moving_loss nb = Some m ->
  exists nb', batch_body e i b nb = Ok nb' /\
              train_data nb' = train_data nb /\
              exists o, ob_index o = i /\ ob_batch o = b /\
                        loop_run e i m [b] nb nb' [o].
Proof.
  intros Hi [Hne Hrows] Hm.
  destruct (forward_ok (net nb) (data b) Hi Hrows) as (out & Hf & Hlen).
  assert (Hpos : 0 < length (data b)).
  { destruct (data b); [congruence | cbn; lia]. }
  destruct (step_ok (trainer nb) (length (data b))
              (backward (net nb) (data b) (label b)) (net nb) Hi Hpos)
    as (d' & Hs & Hi' & Hu').
  unfold batch_body. rewrite Hf. cbn [bind]. rewrite Hs. cbn [bind].
  unfold read_moving_loss. cbn [set_net moving_loss]. rewrite Hm. cbn [bind].
  eexists; split; [reflexivity|].
  split; [destruct (i mod 500 =? 0); reflexivity|].
  set (s := nd_sum (loss out (label b))).
  set (m' := add (mul (lit 0.99) m) (mul (lit 0.01) s)).
  exists {| ob_epoch := e; ob_index := i; ob_batch := b; ob_output := out;
            ob_step_arg := length (data b); ob_loss_sum := s; ob_moving := m' |}.
  split; [reflexivity|]. split; [reflexivity|].
  constructor; unfold line_of; cbn [ob_index ob_epoch ob_moving flat_map map];
    try (destruct (i mod 500 =? 0); cbn; rewrite ?app_nil_r; auto; fail).
  repeat constructor; cbn; auto. exists (net nb); auto.
Qed.

Lemma loop_run_nil e i m nb :
  is_initialized (net nb) = true -> moving_loss nb = Some m ->
  loop_run e i m [] nb nb [].
Proof.
  intros Hi Hm. constructor; cbn; rewrite ?app_nil_r; auto.
Qed.

Lemma loop_run_cons e i m b bsl nb nb1 nb2 o obs :
  ob_index o = i ->
  loop_run e i m [b] nb nb1 [o] ->
  loop_run e (S i) (ob_moving o) bsl nb1 nb2 obs ->
  loop_run e i m (b :: bsl) nb nb2 (o :: obs).
Proof.
  intros Hidx H1 H2. destruct H1, H2.
  constructor; cbn [map flat_map length seq ema_chain] in *.
  - rewrite lr_trace1, lr_trace0, <- app_assoc. reflexivity.
  - rewrite app_nil_r in lr_stdout0.
    rewrite lr_stdout1, lr_stdout0, <- app_assoc. reflexivity.
  - congruence.
  - congruence.
  - inversion lr_obs0; subst. constructor; auto.
  - tauto.
  - rewrite lr_moving1. f_equal. symmetry. apply last_cons.
  - congruence.
  - congruence.
  - congruence.
  - assumption.
  - congruence.
Qed.

(** The inner loop over an iterator whose pass is [bsl] is a run over
    [bsl], and leaves the iterator exhausted. *)
Lemma for_batches_run e : forall fuel bsl nb i m,
  pass fuel (train_data nb) = Some bsl ->
  is_initialized (net nb) = true ->
  Forall (batch_fits (in_units (net nb))) bsl ->
  moving_loss nb = Some m ->
  exists nb' obs,
    for_batches fuel i e nb = Ok nb' /\
    loop_run e i m bsl nb nb' obs /\
    same_source (train_data nb) (train_data nb') /\
    next (train_data nb') = None.
Proof.
  induction fuel as [|fuel IH]; intros bsl nb i m Hp Hi Hfit Hm.
  - cbn in *. destruct (next (train_data nb)) as [[b it']|] eqn:Hn; [discriminate|].
    injection Hp as <-. exists nb, [].
    refine (conj eq_refl (conj _ (conj _ Hn))).
    + apply loop_run_nil; auto.
    + repeat split.
  - cbn in *. destruct (next (train_data nb)) as [[b it']|] eqn:Hn.
    + destruct (pass fuel it') as [bsl'|] eqn:Hp'; [|discriminate].
      injection Hp as <-. inversion Hfit as [|? ? Hb Hrest]; subst.
      destruct (batch_body_ok e i b (set_train_data it' nb) m Hi Hb Hm)
        as (nb1 & Hbody & Htd & o & Hidx & Hbat & Hrun1).
      rewrite Hbody. cbn [bind].
      pose proof (lr_units Hrun1) as Hu.
      cbn [set_train_data net train_data] in Hu, Htd.
      destruct (IH bsl' nb1 (S i) (ob_moving o)) as (nb2 & obs & Hfor & Hrun2 & Hsrc & Hend).
      { now rewrite Htd. }
      { exact (lr_net Hrun1). }
      { now rewrite Hu. }
      { exact (lr_moving Hrun1). }
      exists nb2, (o :: obs).
      refine (conj Hfor (conj _ (conj _ Hend))).
      * apply loop_run_cons with (nb1 := nb1); auto.
        destruct Hrun1. constructor; auto.
      * destruct Hsrc as (Hs1 & Hs2 & Hs3 & Hs4).
        destruct (next_same_source _ _ _ Hn) as (Hn1 & Hn2 & Hn3 & Hn4).
        rewrite Htd in *. repeat split; congruence.
    + injection Hp as <-. exists nb, [].
      refine (conj eq_refl (conj _ (conj _ Hn))).
      * apply loop_run_nil; auto.
      * repeat split.
Qed.

Lemma epoch_body_entry fuel e nb :
  epoch_body fuel e nb = for_batches fuel 0 e (epoch_entry e nb).
Proof. reflexivity. Qed.

(** One epoch over [bs * k] rows. *)
Lemma epoch_body_run fuel e nb bs k :
  ready (bs * k) bs nb -> 0 < bs -> k <= fuel ->
  exists nb' obs,
    epoch_body fuel e nb = Ok nb' /\
    epoch_run e k bs nb nb' obs /\
    ready (bs * k) bs nb'.
Proof.
  intros [Hi Hbs Hlen Hv Hfit] Hpos Hfuel.
  pose proof (reset_rows (train_data nb) (bs * k) Hlen Hv) as Hperm.
  assert (Hlen' : length (it_rows (reset (train_data nb))) = bs * (0 + k)).
  { rewrite (Permutation_length Hperm). exact Hlen. }
  destruct (pass_divisible bs k k (reset (train_data nb)) 0)
    as (bsl & Hpk & Hcount & Hfull & Hcat); auto; try (cbn; lia).
  pose proof (pass_more_fuel k fuel _ _ Hpk Hfuel) as Hp.
  rewrite Nat.mul_0_r, skipn_0 in Hcat.
  assert (Hfits : Forall (batch_fits (in_units (net nb))) bsl).
  { apply (pass_fits _ fuel (reset (train_data nb))); auto.
    - cbn. lia.
    - eapply Permutation_Forall; [symmetry; exact Hperm | exact Hfit]. }
  destruct (for_batches_run e fuel bsl (epoch_entry e nb) 0 zero)
    as (nb' & obs & Hfor & Hrun & (Hs1 & Hs2 & Hs3 & Hs4) & Hend); auto.
  cbn [epoch_entry record_event set_train_data assign_moving_loss train_data] in *.
  exists nb', obs. rewrite epoch_body_entry.
  pose proof (lr_batches Hrun) as Hb.
  split; [exact Hfor|]. split.
  - constructor; rewrite ?Hb; auto.
    + rewrite <- Hcount, <- Hb. now rewrite length_map.
    + rewrite Hcat. exact Hperm.
    + rewrite Hs1. exact Hperm.
  - constructor.
    + exact (lr_net Hrun).
    + rewrite Hs2. exact Hbs.
    + rewrite Hs1, (Permutation_length Hperm). exact Hlen.
    + rewrite Hs3. exact Hv.
    + rewrite Hs1, (lr_units Hrun). cbn.
      eapply Permutation_Forall; [symmetry; exact Hperm | exact Hfit].
Qed.

(** The two epochs of the training cell. *)
Lemma train_run fuel nb bs k :
  ready (bs * k) bs nb -> 0 < bs -> k <= fuel ->
  exists nb1 nb2 obs0 obs1,
    train fuel nb = Ok nb2 /\
    epoch_run 0 k bs nb nb1 obs0 /\
    epoch_run 1 k bs nb1 nb2 obs1 /\
    ready (bs * k) bs nb2.
Proof.
  intros Hr Hpos Hfuel.
  destruct (epoch_body_run fuel 0 nb bs k Hr Hpos Hfuel) as (nb1 & obs0 & He0 & Hrun0 & Hr1).
  destruct (epoch_body_run fuel 1 nb1 bs k Hr1 Hpos Hfuel) as (nb2 & obs1 & He1 & Hrun1 & Hr2).
  exists nb1, nb2, obs0, obs1.
  unfold train, epochs. cbn [seq for_epochs]. rewrite He0. cbn [bind].
  rewrite He1. cbn [bind]. auto.
Qed.

Lemma epoch_run_trace e k bs nb nb' obs :
  epoch_run e k bs nb nb' obs ->
  trace nb' = trace nb ++ EvReset F e :: map (@EvBatch F) obs.
Proof.
  intros H. rewrite (lr_trace (er_loop H)). cbn. now rewrite <- app_assoc.
Qed.

Lemma observations_app (t u : list (Event F)) :
  observations (t ++ u) = observations t ++ observations u.
Proof. unfold observations. apply flat_map_app. Qed.

Lemma observations_batches (obs : list (Obs F)) :
  observations (map (@EvBatch F) obs) = obs.
Proof.
  unfold observations. induction obs as [|o r IH]; cbn; [reflexivity | now rewrite IH].
Qed.

End LoopFacts.

(** ** The cells before the loop *)

Section SetupFacts.

Context {F : Type} {AF : Arith F}.

Lemma num_examples_batches : num_examples = batch_size * 2500.
Proof. reflexivity. Qed.

Lemma make_X_length (g : Rng F) : length (make_X g) = num_examples.
Proof. unfold make_X, random_normal2. cbn [fst]. now rewrite length_map, length_seq. Qed.

Lemma make_X_rows (g : Rng F) :
  Forall (fun row => length row = num_inputs) (make_X g).
Proof.
  unfold make_X, random_normal2. cbn [fst]. apply Forall_map, Forall_forall.
  intros r _. now rewrite length_map, length_seq.
Qed.

Lemma noise_length (g : Rng F) : length (noise g) = num_examples.
Proof. unfold noise, random_normal. cbn [fst]. now rewrite length_map, length_seq. Qed.

Lemma make_y_length (g : Rng F) : length (make_y g) = num_examples.
Proof.
  unfold make_y. rewrite map2_length, make_X_length, noise_length. apply Nat.min_id.
Qed.

Lemma make_X_nth (g : Rng F) i :
  i < num_examples ->
  nth i (make_X g) [] =
    [rng_draw g (rng_pos g + i * 2); rng_draw g (rng_pos g + i * 2 + 1)].
Proof.
  intros Hi. unfold make_X, random_normal2. cbn [fst].
  rewrite nth_map_seq by exact Hi. unfold num_inputs. cbn [seq map].
  repeat f_equal. lia.
Qed.

Lemma make_y_nth (g : Rng F) i :
  i < num_examples ->
  nth i (make_y g) zero =
    real_fn (nth i (make_X g) [])
      (rng_draw g (rng_pos g + num_examples * 2 + i)).
Proof.
  intros Hi. unfold make_y.
  rewrite (map2_nth (@real_fn F AF) _ _ i [] zero) by
    (rewrite ?make_X_length, ?noise_length; exact Hi).
  f_equal.
  unfold noise, random_normal, random_normal2. cbn [fst snd advance rng_draw rng_pos].
  rewrite (nth_indep _ zero (rng_draw g 0)) by now rewrite length_map, length_seq.
  rewrite map_nth, seq_nth by exact Hi. reflexivity.
Qed.

Lemma dataset_rows_fit (g : Rng F) :
  Forall (fun r => length (fst r) = num_inputs) (combine (make_X g) (make_y g)).
Proof.
  apply Forall_forall. intros [row l] Hin. cbn [fst].
  apply in_combine_l in Hin.
  pose proof (make_X_rows g) as H. rewrite Forall_forall in H. auto.
Qed.

Lemma dataset_length (g : Rng F) :
  length (combine (make_X g) (make_y g)) = num_examples.
Proof.
  rewrite length_combine, make_X_length, make_y_length. apply Nat.min_id.
Qed.

Lemma initialize_initialized (g : Rng F) n :
  is_initialized (fst (initialize g (Dense_new F n))) = true /\
  in_units (fst (initialize g (Dense_new F n))) = n.
Proof. split; reflexivity. Qed.

Context {AG : Autograd F}.

(** The state the cells before the loop leave is ready for the epochs. *)
Lemma setup_ready (g : Rng F) shuffle :
  valid_shuffle num_examples shuffle ->
  ready num_examples batch_size (setup true g shuffle).
Proof.
  intros Hv.
  assert (Hperm : Permutation (pick (shuffle 0) (combine (make_X g) (make_y g)))
                    (combine (make_X g) (make_y g))).
  { apply pick_permutation. rewrite dataset_length. apply Hv. }
  constructor; cbn [setup net train_data NDArrayIter_new it_rows it_batch_size it_shuffle].
  - apply initialize_initialized.
  - reflexivity.
  - rewrite (Permutation_length Hperm). apply dataset_length.
  - exact Hv.
  - eapply Permutation_Forall; [symmetry; exact Hperm|].
    destruct (initialize_initialized (rng_after_dataset g) num_inputs) as [_ ->].
    apply dataset_rows_fit.
Qed.

(** The whole notebook: two epochs of 2500 turns each. *)
Lemma notebook_run fuel (g : Rng F) shuffle :
  valid_shuffle num_examples shuffle -> 2500 <= fuel ->
  exists nb1 nb2 obs0 obs1,
    notebook fuel g shuffle = Ok nb2 /\
    epoch_run 0 2500 batch_size (setup true g shuffle) nb1 obs0 /\
    epoch_run 1 2500 batch_size nb1 nb2 obs1.
Proof.
  intros Hv Hfuel.
  destruct (train_run fuel (setup true g shuffle) batch_size 2500)
    as (nb1 & nb2 & obs0 & obs1 & Ht & H0 & H1 & _).
  - exact (setup_ready g shuffle Hv).
  - unfold batch_size; lia.
  - exact Hfuel.
  - exists nb1, nb2, obs0, obs1. auto.
Qed.

End SetupFacts.

(** * The claims *)

Section TrainingLoop.

Context {F : Type} {AF : Arith F} {AG : Autograd F}.

Lemma epoch_run_rows_of e k bs (nb nb' : Notebook F) obs rows :
  epoch_run e k bs nb nb' obs ->
  Permutation (it_rows (train_data nb)) rows ->
  Permutation (concat (map (@batch_rows F) (map (@ob_batch F) obs))) rows /\
  Permutation (it_rows (train_data nb')) rows.
Proof.
  intros H Hp. split.
  - rewrite (er_cover H). exact Hp.
  - rewrite (er_rows H). exact Hp.
Qed.

Lemma setup_rows (g : Rng F) shuffle :
  valid_shuffle num_examples shuffle ->
  Permutation (it_rows (train_data (setup true g shuffle)))
    (combine (make_X g) (make_y g)).
Proof.
  intros Hv. cbn [setup train_data NDArrayIter_new it_rows].
  apply pick_permutation. rewrite dataset_length. apply Hv.
Qed.

(** C8.  The training loop runs exactly two epochs.  Whatever the draws and
    the shuffle orders, the run ends normally, and what it did is, in
    order: reset of the iterator for epoch 0, one turn of the loop body for
    each batch of the full pass that follows the reset (the 2500 batches,
    indexed 0 to 2499, whose rows are the dataset), reset for epoch 1, one
    turn for each batch of the second full pass; nothing else.  At the end
    the iterator is exhausted. *)
Theorem training_loop_two_epochs fuel (g : Rng F) shuffle :
  valid_shuffle num_examples shuffle -> 2500 <= fuel ->
  exists nb1 nb2 obs0 obs1,
    notebook fuel g shuffle = Ok nb2 /\
    trace nb2 = EvReset F 0 :: map (@EvBatch F) obs0
                ++ EvReset F 1 :: map (@EvBatch F) obs1 /\
    pass 2500 (reset (train_data (setup true g shuffle))) = Some (map (@ob_batch F) obs0) /\
    pass 2500 (reset (train_data nb1)) = Some (map (@ob_batch F) obs1) /\
    map (@ob_index F) obs0 = seq 0 2500 /\
    map (@ob_index F) obs1 = seq 0 2500 /\
    Forall (fun o => ob_epoch o = 0) obs0 /\
    Forall (fun o => ob_epoch o = 1) obs1 /\
    Permutation (concat (map (@batch_rows F) (map (@ob_batch F) obs0)))
      (combine (make_X g) (make_y g)) /\
    Permutation (concat (map (@batch_rows F) (map (@ob_batch F) obs1)))
      (combine (make_X g) (make_y g)) /\
    next (train_data nb2) = None.
Proof.
  intros Hv Hfuel.
  destruct (notebook_run fuel g shuffle Hv Hfuel) as (nb1 & nb2 & obs0 & obs1 & Hn & H0 & H1).
  exists nb1, nb2, obs0, obs1.
  destruct (epoch_run_rows_of _ _ _ _ _ _ _ H0 (setup_rows g shuffle Hv)) as [Hc0 Hr1].
  destruct (epoch_run_rows_of _ _ _ _ _ _ _ H1 Hr1) as [Hc1 _].
  pose proof (lr_indices (er_loop H0)) as Hi0.
  pose proof (lr_indices (er_loop H1)) as Hi1.
  rewrite length_map, (er_count H0) in Hi0.
  rewrite length_map, (er_count H1) in Hi1.
  repeat split; auto.
  - rewrite (epoch_run_trace _ _ _ _ _ _ H1), (epoch_run_trace _ _ _ _ _ _ H0).
    reflexivity.
  - exact (er_pass H0).
  - exact (er_pass H1).
  - eapply Forall_impl; [|exact (lr_obs (er_loop H0))]. now intros o [He _].
  - eapply Forall_impl; [|exact (lr_obs (er_loop H1))]. now intros o [He _].
  - exact (er_exhausted H1).
Qed.

(** The turns of the two epochs of a run are the observations of its
    trace, epoch by epoch. *)
Lemma epoch_runs_observations k bs nb nb1 nb2 obs0 obs1 :
  trace nb = [] ->
  epoch_run 0 k bs nb nb1 obs0 -> epoch_run 1 k bs nb1 nb2 obs1 ->
  trace nb2 = EvReset F 0 :: map (@EvBatch F) obs0
              ++ EvReset F 1 :: map (@EvBatch F) obs1 /\
  observations (trace nb2) = obs0 ++ obs1 /\
  epoch_observations 0 (trace nb2) = obs0 /\
  epoch_observations 1 (trace nb2) = obs1.
Proof.
  intros Hnil H0 H1.
  assert (Ht : trace nb2 = EvReset F 0 :: map (@EvBatch F) obs0
                           ++ EvReset F 1 :: map (@EvBatch F) obs1).
  { rewrite (epoch_run_trace _ _ _ _ _ _ H1), (epoch_run_trace _ _ _ _ _ _ H0), Hnil.
    reflexivity. }
  assert (Hobs : observations (trace nb2) = obs0 ++ obs1).
  { rewrite Ht.
    change (observations (EvReset F 0 :: map (@EvBatch F) obs0
                          ++ EvReset F 1 :: map (@EvBatch F) obs1))
      with (observations (map (@EvBatch F) obs0 ++ EvReset F 1 :: map (@EvBatch F) obs1)).
    rewrite observations_app.
    change (observations (EvReset F 1 :: map (@EvBatch F) obs1))
      with (observations (map (@EvBatch F) obs1)).
    now rewrite !observations_batches. }
  assert (He0 : Forall (fun o => ob_epoch o = 0) obs0).
  { eapply Forall_impl; [|exact (lr_obs (er_loop H0))]. now intros o [He _]. }
  assert (He1 : Forall (fun o => ob_epoch o = 1) obs1).
  { eapply Forall_impl; [|exact (lr_obs (er_loop H1))]. now intros o [He _]. }
  refine (conj Ht (conj Hobs (conj _ _)));
    unfold epoch_observations; rewrite Hobs, filter_app.
  - rewrite filter_keep_all, filter_drop_all, app_nil_r; auto.
    + eapply Forall_impl; [|exact He1]. intros o ->. reflexivity.
    + eapply Forall_impl; [|exact He0]. intros o ->. reflexivity.
  - rewrite filter_drop_all, filter_keep_all; auto.
    + eapply Forall_impl; [|exact He1]. intros o ->. reflexivity.
    + eapply Forall_impl; [|exact He0]. intros o ->. reflexivity.
Qed.

(** The observations of the notebook's run, epoch by epoch. *)
Lemma notebook_epochs fuel (g : Rng F) shuffle :
  valid_shuffle num_examples shuffle -> 2500 <= fuel ->
  exists nb1 nb2 obs0 obs1,
    notebook fuel g shuffle = Ok nb2 /\
    epoch_run 0 2500 batch_size (setup true g shuffle) nb1 obs0 /\
    epoch_run 1 2500 batch_size nb1 nb2 obs1 /\
    observations (trace nb2) = obs0 ++ obs1 /\
    epoch_observations 0 (trace nb2) = obs0 /\
    epoch_observations 1 (trace nb2) = obs1.
Proof.
  intros Hv Hfuel.
  destruct (notebook_run fuel g shuffle Hv Hfuel) as (nb1 & nb2 & obs0 & obs1 & Hn & H0 & H1).
  exists nb1, nb2, obs0, obs1.
  destruct (epoch_runs_observations 2500 batch_size (setup true g shuffle) nb1 nb2
              obs0 obs1 eq_refl H0 H1) as (_ & Hobs & Ho0 & Ho1).
  auto 10.
Qed.

Lemma epoch_run_dataset e k bs (nb nb' : Notebook F) obs :
  epoch_run e k bs nb nb' obs -> X nb' = X nb /\ y nb' = y nb.
Proof.
  intros H. split; [exact (lr_X (er_loop H)) | exact (lr_y (er_loop H))].
Qed.

(** C6.  The dataset cell builds exactly 10000 feature vectors of 2 entries
    and 10000 labels.  Feature vector [i] is made of the draws [2i] and
    [2i+1] of the first call of the sampler; label [i] is
    [2 * x0 - 3.4 * x1 + 4.2 + .01 * z] with [x0], [x1] the entries of
    feature vector [i] and [z] draw [i] of the second call of the sampler, a
    draw of its own for every label.  The training run leaves [X] and [y]
    as the cell built them. *)
Theorem dataset_generated_once (g : Rng F) :
  Z.of_nat (length (make_X g)) = 10000%Z /\
  Z.of_nat (length (make_y g)) = 10000%Z /\
  Forall (fun row => length row = 2) (make_X g) /\
  (forall i, i < num_examples ->
     nth i (make_X g) [] =
       [rng_draw g (rng_pos g + i * 2); rng_draw g (rng_pos g + i * 2 + 1)] /\
     nth i (make_y g) zero =
       add (add (sub (mul (lit 2) (nth 0 (nth i (make_X g) []) zero))
                     (mul (lit 3.4) (nth 1 (nth i (make_X g) []) zero)))
                (lit 4.2))
           (mul (lit 0.01) (rng_draw g (rng_pos g + num_examples * 2 + i)))) /\
  (forall fuel shuffle,
     valid_shuffle num_examples shuffle -> 2500 <= fuel ->
     exists nb', notebook fuel g shuffle = Ok nb' /\
                 X nb' = make_X g /\ y nb' = make_y g).
Proof.
  split; [now rewrite make_X_length|].
  split; [now rewrite make_y_length|].
  split; [exact (make_X_rows g)|].
  split.
  - intros i Hi. split; [exact (make_X_nth g i Hi)|].
    rewrite (make_y_nth g i Hi). reflexivity.
  - intros fuel shuffle Hv Hfuel.
    destruct (notebook_run fuel g shuffle Hv Hfuel) as (nb1 & nb2 & obs0 & obs1 & Hn & H0 & H1).
    exists nb2. split; [exact Hn|].
    destruct (epoch_run_dataset _ _ _ _ _ _ H0) as [HX0 Hy0].
    destruct (epoch_run_dataset _ _ _ _ _ _ H1) as [HX1 Hy1].
    split; [rewrite HX1, HX0 | rewrite Hy1, Hy0]; reflexivity.
Qed.

End TrainingLoop.

Lemma identity_shuffle_valid : valid_shuffle num_examples identity_shuffle.
Proof. intros r. apply Permutation_refl. Qed.

Lemma training_loop_two_epochs_witness :
  valid_shuffle num_examples identity_shuffle /\ 2500 <= 2500 /\
  is_ok (notebook (AG := analytic_autograd) 2500 alternating_draws identity_shuffle) = true.
Proof.
  split; [exact identity_shuffle_valid | split; [lia|]].
  destruct (training_loop_two_epochs (AG := analytic_autograd) 2500 alternating_draws
              identity_shuffle identity_shuffle_valid (le_n 2500))
    as (nb1 & nb2 & obs0 & obs1 & Hn & _).
  rewrite Hn. reflexivity.
Defined.

Lemma spent_iterator_exhausted : next spent_iterator = None.
Proof.
  apply next_exhausted. cbn [spent_iterator it_rows it_cursor].
  unfold alternating_rows. rewrite dataset_length. apply le_n.
Qed.

Lemma full_pass_yields_each_row_once_witness :
  next spent_iterator = None /\
  exists bsl,
    pass 2500 (reset spent_iterator) = Some bsl /\
    length bsl = 2500 /\
    Permutation (concat (map (@data Q) bsl)) (make_X alternating_draws).
Proof.
  split; [exact spent_iterator_exhausted|].
  destruct (full_pass_yields_each_row_once (make_X alternating_draws)
              (make_y alternating_draws)
              (make_X_length alternating_draws) (make_y_length alternating_draws))
    as [Hpass _].
  destruct (Hpass spent_iterator (Permutation_refl _) eq_refl identity_shuffle_valid)
    as (bsl & Hp & Hc & _ & Hx & _).
  exists bsl. exact (conj Hp (conj Hc Hx)).
Defined.

Lemma dataset_generated_once_witness :
  Z.of_nat (length (make_X alternating_draws)) = 10000%Z /\
  is_ok (notebook (AG := analytic_autograd) 2500 alternating_draws identity_shuffle) = true.
Proof.
  destruct (dataset_generated_once (AG := analytic_autograd) alternating_draws)
    as (HX & _ & _ & _ & Hrun).
  split; [exact HX|].
  destruct (Hrun 2500 identity_shuffle identity_shuffle_valid (le_n 2500)) as (nb' & Hn & _).
  rewrite Hn. reflexivity.
Defined.

(** ** Loss, optimizer and model *)

Section FrameworkFacts.

Context {F : Type} {AF : Arith F}.

Lemma loss_nth (output label : list F) i d :
  length output = length label -> i < length output ->
  nth i (loss output label) d = squared_error (nth i output d) (nth i label d).
Proof.
  intros Hlen Hi. unfold loss, L2Loss. apply map2_nth; lia.
Qed.

Lemma loss_length (output label : list F) :
  length output = length label -> length (loss output label) = length output.
Proof.
  intros Hlen. unfold loss, L2Loss. rewrite map2_length. lia.
Qed.

(** C3.  With a batch size [b > 0], one step of the optimizer on
    initialized parameters succeeds and replaces every weight entry and the
    bias [p], whose gradient is [g], by [p - lr * g / b].  The result is
    determined by the parameters, the gradients, the learning rate and the
    batch size: two trainers with the same learning rate take the same
    step, and the step has one outcome. *)
Theorem optimizer_step_update (t : Trainer F) b (g : Grad F) (d : Dense F) w c :
  0 < b -> weight d = Some w -> bias d = Some c ->
  exists w',
    step t b g d =
      Ok {| in_units := in_units d; weight := Some w';
            bias := Some (sub c (div (mul (learning_rate t) (g_bias g)) (of_nat b))) |} /\
    length w' = length w /\
    (forall j, j < length w ->
       nth j w' zero =
         sub (nth j w zero)
             (div (mul (learning_rate t) (nth j (g_weight g) zero)) (of_nat b))) /\
    (forall d1 d2, step t b g d = Ok d1 -> step t b g d = Ok d2 -> d1 = d2) /\
    (forall t', learning_rate t' = learning_rate t -> step t' b g d = step t b g d).
Proof.
  intros Hb Hw Hc. destruct b as [|b]; [lia|].
  eexists. split; [unfold step; rewrite Hw, Hc; reflexivity|].
  split; [apply imap_from_length|].
  split; [|split].
  - intros j Hj. rewrite (imap_from_nth _ w 0 j zero zero Hj). reflexivity.
  - intros d1 d2 H1 H2. congruence.
  - intros t' Hlr. unfold step. now rewrite Hlr.
Qed.

Lemma forward_uninitialized (d : Dense F) x :
  is_initialized d = false ->
  exists name, forward d x = Err (UninitializedParameter name).
Proof.
  unfold is_initialized, forward. intros H.
  destruct (weight d); [destruct (bias d); [discriminate|]|]; eexists; reflexivity.
Qed.

End FrameworkFacts.

Lemma optimizer_step_update_witness :
  exists w',
    step {| learning_rate := 0.1%Q |} 4
      {| g_weight := [8; -4]%Q; g_bias := 2%Q |}
      {| in_units := 2; weight := Some [1; 1]%Q; bias := Some 0%Q |} =
    Ok {| in_units := 2; weight := Some w';
          bias := Some (0 - 0.1 * 2 / inject_Z 4)%Q |}.
Proof.
  destruct (optimizer_step_update {| learning_rate := 0.1%Q |} 4
              {| g_weight := [8; -4]%Q; g_bias := 2%Q |}
              {| in_units := 2; weight := Some [1; 1]%Q; bias := Some 0%Q |}
              [1; 1]%Q 0%Q (Nat.lt_0_succ 3) eq_refl eq_refl) as (w' & Hs & _).
  exists w'. exact Hs.
Defined.

Section ModelFacts.

Context {F : Type} {AF : Arith F} {AG : Autograd F}.

(** Training a model whose weight has no value stops at the first forward
    pass. *)
Lemma train_uninitialized fuel (nb : Notebook F) bs k :
  weight (net nb) = None ->
  it_batch_size (train_data nb) = bs -> 0 < bs ->
  length (it_rows (train_data nb)) = bs * S k ->
  valid_shuffle (bs * S k) (it_shuffle (train_data nb)) ->
  0 < fuel ->
  train fuel nb = Err (UninitializedParameter "dense1_weight").
Proof.
  intros Hw Hbs Hpos Hlen Hv Hfuel.
  pose proof (reset_rows (train_data nb) (bs * S k) Hlen Hv) as Hperm.
  destruct (next_inside (reset (train_data nb)) bs 0 k)
    as (b & it' & Hn & _); auto; try (cbn; lia).
  { rewrite (Permutation_length Hperm). exact Hlen. }
  destruct fuel as [|fuel]; [lia|].
  unfold train, epochs. cbn [seq for_epochs]. rewrite epoch_body_entry.
  cbn [for_batches].
  change (train_data (epoch_entry 0 nb)) with (reset (train_data nb)).
  rewrite Hn. unfold batch_body, forward.
  cbn [set_train_data epoch_entry record_event assign_moving_loss net].
  rewrite Hw. reflexivity.
Qed.

(** C4.  A model whose parameters have no values fails on every input with
    the uninitialized-parameter error, and so does the training run when
    the initialization cell is skipped.  Once the parameters are
    initialized, the model returns one prediction for every row of a batch
    of 2-dimensional feature vectors, and the training run of the notebook
    ends without any error. *)
Theorem model_needs_initialization :
  (forall (d : Dense F) x, is_initialized d = false ->
     exists name, forward d x = Err (UninitializedParameter name)) /\
  (forall x, forward (Dense_new F num_inputs) x
             = Err (UninitializedParameter "dense1_weight")) /\
  (forall (g : Rng F) x,
     Forall (fun row => length row = 2) x ->
     exists out, forward (fst (initialize g (Dense_new F num_inputs))) x = Ok out /\
                 length out = length x) /\
  (forall fuel (g : Rng F) shuffle,
     valid_shuffle num_examples shuffle -> 2500 <= fuel ->
     train fuel (setup false g shuffle)
       = Err (UninitializedParameter "dense1_weight") /\
     exists nb', train fuel (setup true g shuffle) = Ok nb').
Proof.
  split; [exact forward_uninitialized|].
  split; [reflexivity|].
  split.
  - intros g x Hx.
    apply forward_ok; [apply initialize_initialized|].
    destruct (initialize_initialized g num_inputs) as [_ ->]. exact Hx.
  - intros fuel g shuffle Hv Hfuel. split.
    + destruct (setup_ready g shuffle Hv) as [_ Hbs Hrows Hsh _].
      apply (train_uninitialized fuel (setup false g shuffle) batch_size 2499);
        auto; try (unfold batch_size; lia).
    + destruct (notebook_run fuel g shuffle Hv Hfuel) as (nb1 & nb2 & _ & _ & Hn & _).
      exists nb2. exact Hn.
Qed.

End ModelFacts.

Lemma model_needs_initialization_witness :
  valid_shuffle num_examples identity_shuffle /\ 2500 <= 2500 /\
  train (AG := analytic_autograd) 2500 (setup false alternating_draws identity_shuffle)
    = Err (UninitializedParameter "dense1_weight").
Proof.
  split; [exact identity_shuffle_valid | split; [lia|]].
  destruct (model_needs_initialization (AG := analytic_autograd)) as (_ & _ & _ & H).
  exact (proj1 (H 2500 alternating_draws identity_shuffle identity_shuffle_valid (le_n 2500))).
Defined.

(** ** Exact arithmetic *)

Section ExactFacts.

Local Open Scope Q_scope.

Lemma Qsquare_nonneg (x : Q) : 0 <= x * x.
Proof. nra. Qed.

Lemma squared_error_nonneg (p l : Q) : 0 <= squared_error p l.
Proof. unfold squared_error. cbn [mul sub Q_arith]. apply Qsquare_nonneg. Qed.

Lemma squared_error_zero (p l : Q) : squared_error p l == 0 <-> p == l.
Proof.
  unfold squared_error. cbn [mul sub Q_arith]. split; intros H.
  - assert (H0 : (p - l) == 0).
    { destruct (Qmult_integral _ _ H); assumption. }
    lra.
  - rewrite H. ring.
Qed.

(** Over the exact rationals every component of the loss is greater than
    or equal to 0, and it is 0 exactly when the prediction equals the
    label; both hold as well of the squared error scaled by any positive
    factor. *)
Lemma exact_loss_sign (output label : list Q) (i : nat) :
  length output = length label -> (i < length output)%nat ->
  0 <= nth i (loss output label) 0 /\
  (nth i (loss output label) 0 == 0 <-> nth i output 0 == nth i label 0) /\
  (forall k, 0 < k ->
     0 <= k * nth i (loss output label) 0 /\
     (k * nth i (loss output label) 0 == 0 <-> nth i output 0 == nth i label 0)).
Proof.
  intros Hlen Hi. rewrite loss_nth by assumption.
  pose proof (squared_error_nonneg (nth i output 0) (nth i label 0)) as Hge.
  pose proof (squared_error_zero (nth i output 0) (nth i label 0)) as Hz.
  split; [exact Hge|]. split; [exact Hz|].
  intros k Hk. split.
  - apply Qmult_le_0_compat; [lra | exact Hge].
  - rewrite <- Hz. split; intros H.
    + destruct (Qmult_integral _ _ H) as [Hk0|Hs]; [lra | exact Hs].
    + rewrite H. ring.
Qed.

End ExactFacts.

(** ** Rounded arithmetic *)

Section FloatFacts.

(** Rounding keeps the sign: what is rounded from a number that is not
    negative is not negative. *)
Lemma binary_round_aux_sign prec emax m e l :
  binary_round_aux prec emax false m e l = S754_nan \/
  SFleb (S754_zero false) (binary_round_aux prec emax false m e l) = true.
Proof.
  unfold binary_round_aux.
  destruct (shr_fexp prec emax m e l) as [mrs' e'].
  destruct (shr_fexp prec emax _ e' loc_Exact) as [mrs'' e''].
  destruct (shr_m mrs'') as [|q|q]; auto.
  destruct (e'' <=? emax - prec)%Z; auto.
Qed.

Lemma SFmul_square_sign prec emax (d : float32) :
  SFmul prec emax d d = S754_nan \/
  SFleb (S754_zero false) (SFmul prec emax d d) = true.
Proof.
  destruct d as [s|s| |s m e]; cbn [SFmul];
    try replace (xorb s s) with false by (now destruct s).
  - right. reflexivity.
  - right. reflexivity.
  - left. reflexivity.
  - apply binary_round_aux_sign.
Qed.

(** Numbers that compare equal are two zeros or the same number. *)
Lemma SFeqb_finite (p l : float32) :
  float32_finite p = true -> SFeqb p l = true ->
  (exists s t, p = S754_zero s /\ l = S754_zero t) \/
  (exists s m e, p = S754_finite s m e /\ l = S754_finite s m e).
Proof.
  unfold SFeqb.
  destruct p as [s|s| |s m e]; cbn [float32_finite]; try discriminate; intros _;
    destruct l as [t|t| |t m' e']; cbn [SFcompare];
    try discriminate; try (destruct s; discriminate); try (destruct t; discriminate).
  - intros _. left. eauto.
  - intros H. right. exists s, m, e. split; [reflexivity|].
    destruct s, t; try discriminate;
      destruct (e ?= e')%Z eqn:He; try discriminate;
      apply Z.compare_eq in He; subst e';
      destruct (Pos.compare_cont Eq m m') eqn:Hm; try discriminate;
      apply Pos.compare_eq in Hm; subst m'; reflexivity.
Qed.

Lemma float32_squared_error_sign (p l : float32) :
  squared_error (AF := float32_arith) p l = S754_nan \/
  SFleb (S754_zero false) (squared_error (AF := float32_arith) p l) = true.
Proof. apply SFmul_square_sign. Qed.

Lemma float32_squared_error_equal (p l : float32) :
  float32_finite p = true -> SFeqb p l = true ->
  squared_error (AF := float32_arith) p l = S754_zero false.
Proof.
  intros Hf He. unfold squared_error. cbn [mul sub float32_arith].
  destruct (SFeqb_finite p l Hf He) as [(s & t & -> & ->)|(s & m & e & -> & ->)].
  - now destruct s, t.
  - cbn [SFsub]. now rewrite Z.sub_diag.
Qed.

(** C7, as stated, fails in the arithmetic of the tensors.  The float32
    number [2 ^ -100] is not equal to 0, yet the loss of the prediction
    [2 ^ -100] against the label 0 is 0: the square [2 ^ -200] of their
    difference is below the smallest positive float32 number and rounds to
    0.  And the loss of the prediction [+infinity] against the equal label
    [+infinity] is NaN, which is neither 0 nor greater than 0. *)
Lemma loss_zero_for_unequal_float32 :
  valid_binary 24 128 float32_tiny = true /\
  SFeqb float32_tiny (S754_zero false) = false /\
  loss (AF := float32_arith) [float32_tiny] [S754_zero false] = [S754_zero false] /\
  loss (AF := float32_arith) [S754_infinity false] [S754_infinity false] = [S754_nan] /\
  ~ (forall p l : float32,
       SFeqb (nth 0 (loss (AF := float32_arith) [p] [l]) S754_nan) (S754_zero false) = true
       <-> SFeqb p l = true).
Proof.
  split; [reflexivity|]. split; [reflexivity|]. split; [reflexivity|].
  split; [reflexivity|].
  intros H. destruct (H float32_tiny (S754_zero false)) as [H1 _].
  discriminate (H1 eq_refl).
Qed.

(** C7 (amended).  In exact arithmetic every component of the loss is
    greater than or equal to 0, and it is 0 exactly when the prediction
    equals the label; both hold as well of the squared error scaled by any
    positive factor.  In the float32 arithmetic of the tensors every
    component of the loss is greater than or equal to 0 or is NaN, and it
    is 0 whenever the prediction is finite and equals the label; that a
    loss of 0 is met only by equal prediction and label holds in exact
    arithmetic only. *)
Theorem loss_nonnegative_zero_iff_equal :
  (forall (output label : list Q) (i : nat),
     length output = length label -> i < length output ->
     (0 <= nth i (loss output label) 0)%Q /\
     (nth i (loss output label) 0%Q == 0 <-> nth i output 0%Q == nth i label 0%Q)%Q /\
     (forall k, (0 < k)%Q ->
        (0 <= k * nth i (loss output label) 0)%Q /\
        (k * nth i (loss output label) 0%Q == 0
         <-> nth i output 0%Q == nth i label 0%Q)%Q)) /\
  (forall (output label : list float32) (i : nat),
     length output = length label -> i < length output ->
     (nth i (loss (AF := float32_arith) output label) S754_nan = S754_nan \/
      SFleb (S754_zero false)
        (nth i (loss (AF := float32_arith) output label) S754_nan) = true) /\
     (float32_finite (nth i output S754_nan) = true ->
      SFeqb (nth i output S754_nan) (nth i label S754_nan) = true ->
      nth i (loss (AF := float32_arith) output label) S754_nan = S754_zero false)).
Proof.
  split.
  - exact exact_loss_sign.
  - intros output label i Hlen Hi.
    rewrite (loss_nth (AF := float32_arith)) by assumption.
    split; [apply float32_squared_error_sign|].
    apply float32_squared_error_equal.
Qed.

End FloatFacts.

Lemma loss_nonnegative_zero_iff_equal_witness :
  (0 <= nth 0 (loss [3] [3])%Q 0)%Q /\
  (nth 0 (loss [3] [3])%Q 0 == 0)%Q /\
  nth 0 (loss (AF := float32_arith) [float32_lit 1.5] [float32_lit 1.5]) S754_nan
    = S754_zero false.
Proof.
  destruct loss_nonnegative_zero_iff_equal as [Hexact Hfloat].
  destruct (Hexact [3]%Q [3]%Q 0 eq_refl (le_n 1)) as (Hge & Hiff & _).
  destruct (Hfloat [float32_lit 1.5] [float32_lit 1.5] 0 eq_refl (le_n 1)) as (_ & Hz).
  split; [exact Hge|]. split; [apply Hiff; reflexivity|].
  apply Hz; reflexivity.
Defined.


(** ** Runs by hand *)

(** Two epochs over four examples in batches of two: the first turn of
    each epoch leaves [0.01] times its loss sum as the moving loss. *)
Example tiny_run :
  summary (train (AF := Qred_arith) (AG := reduced_autograd) 2 tiny_notebook) =
    [ (0, 0, 2, (977 # 25)%Q, (977 # 2500)%Q);
      (0, 1, 2, (1421 # 100)%Q, (16531 # 31250)%Q);
      (1, 0, 2, (92173 # 5000)%Q, (92173 # 500000)%Q);
      (1, 1, 2, (175273 # 25000)%Q, (12630587 # 50000000)%Q) ].
Proof. vm_compute. reflexivity. Qed.

(** With a bound of one turn the inner loop does not get through a pass of
    two batches. *)
Example tiny_run_out_of_fuel :
  train (AF := Qred_arith) (AG := reduced_autograd) 1 tiny_notebook = Err OutOfFuel.
Proof. vm_compute. reflexivity. Qed.

(** When the batch size does not divide the number of rows, the last batch
    of a pass is filled up from the start and a row is yielded twice. *)
Example odd_pass_is_padded :
  pass 2 (reset odd_iterator) =
    Some [ {| data := [[1; 0]; [0; 1]]%Q; label := [1; 2]%Q; pad := 0 |};
           {| data := [[1; 1]; [1; 0]]%Q; label := [3; 1]%Q; pad := 1 |} ].
Proof. vm_compute. reflexivity. Qed.

(** ** The run on the alternating draws *)

Section AlternatingRun.

Local Open Scope Q_scope.

Lemma alternating_row i :
  (i < num_examples)%nat ->
  nth i alternating_rows ([], 0) =
    ([0; 0], real_fn [0; 0] (if Nat.even i then 1 else -1)).
Proof.
  intros Hi. unfold alternating_rows.
  rewrite combine_nth by now rewrite make_X_length, make_y_length.
  change (@nth Q i (make_y alternating_draws) 0)
    with (nth i (make_y alternating_draws) zero).
  rewrite make_y_nth, make_X_nth by exact Hi.
  cbn [alternating_draws rng_draw rng_pos Nat.add].
  assert (H1 : (i * 2 <? num_examples * num_inputs)%nat = true).
  { apply Nat.ltb_lt. unfold num_inputs. lia. }
  assert (H2 : (i * 2 + 1 <? num_examples * num_inputs)%nat = true).
  { apply Nat.ltb_lt. unfold num_inputs. lia. }
  assert (H3 : (num_examples * 2 + i <? num_examples * num_inputs)%nat = false).
  { apply Nat.ltb_ge. unfold num_inputs. lia. }
  rewrite H1, H2, H3.
  replace (num_examples * 2 + i)%nat with (i + 2 * num_examples)%nat by lia.
  now rewrite Nat.even_add_mul_2.
Qed.

Lemma alternating_slice j :
  (j < 2500)%nat -> slice batch_size alternating_rows j = alternating_batch.
Proof.
  intros Hj. unfold slice, batch_size.
  assert (Hlen : length alternating_rows = num_examples) by apply dataset_length.
  rewrite (firstn_skipn_nths alternating_rows ([], 0)) by (rewrite Hlen, num_examples_batches; unfold batch_size; lia).
  cbn [seq map].
  rewrite !alternating_row by (rewrite num_examples_batches; unfold batch_size; lia).
  replace (S (4 * j)) with (1 + 2 * (2 * j))%nat by lia.
  replace (S (1 + 2 * (2 * j))) with (2 + 2 * (2 * j))%nat by lia.
  replace (S (2 + 2 * (2 * j))) with (3 + 2 * (2 * j))%nat by lia.
  replace (4 * j)%nat with (0 + 2 * (2 * j))%nat by lia.
  rewrite !Nat.even_add_mul_2. reflexivity.
Qed.

Lemma Qsquare_pos (x : Q) : ~ x == 0 -> 0 < x * x.
Proof.
  intros H. destruct (Qlt_le_dec 0 (x * x)) as [|Hle]; [assumption|].
  exfalso. apply H.
  assert (H0 : x * x == 0) by (apply Qle_antisym; [exact Hle | apply Qsquare_nonneg]).
  destruct (Qmult_integral _ _ H0); assumption.
Qed.

(** Two examples with different labels cannot both be fitted by one
    prediction. *)
Lemma two_labels_loss_positive (o ya yb : Q) :
  ~ ya == yb ->
  0 < nd_sum (loss [o; o; o; o] [ya; yb; ya; yb]).
Proof.
  intros Hne. unfold nd_sum, loss, L2Loss, squared_error, zero.
  cbn [map2 fold_left add sub mul lit Q_arith].
  pose proof (Qsquare_nonneg (o - ya)) as Ha.
  pose proof (Qsquare_nonneg (o - yb)) as Hb.
  destruct (Qeq_dec (o - ya) 0) as [Hz|Hnz].
  - assert (Hnb : ~ o - yb == 0) by (intros Hzb; apply Hne; lra).
    pose proof (Qsquare_pos _ Hnb). lra.
  - pose proof (Qsquare_pos _ Hnz). lra.
Qed.

Lemma alternating_labels_differ :
  ~ real_fn [0; 0] 1 == real_fn [0; 0] (-1).
Proof. vm_compute. discriminate. Qed.

Lemma alternating_loss_positive (d : Dense Q) out :
  forward d (data alternating_batch) = Ok out ->
  0 < nd_sum (loss out (label alternating_batch)).
Proof.
  unfold forward. destruct (weight d) as [w|]; [|discriminate].
  destruct (bias d) as [c|]; [|discriminate].
  destruct (forallb _ _); [|discriminate].
  intros H; injection H as <-.
  cbn [alternating_batch data label repeat map].
  apply two_labels_loss_positive, alternating_labels_differ.
Qed.

Lemma ema_chain_positive (obs : list (Obs Q)) : forall m,
  0 <= m -> ema_chain m obs ->
  Forall (fun o => 0 < ob_loss_sum o) obs ->
  Forall (fun o => 0 < ob_moving o) obs.
Proof.
  induction obs as [|o obs IH]; intros m Hm Hchain Hs; [constructor|].
  destruct Hchain as [Ho Hrest]. inversion Hs as [|? ? Hso Hsr]; subst.
  cbn [add mul lit Q_arith] in Ho.
  assert (Hpos : 0 < ob_moving o) by (rewrite Ho; lra).
  constructor; [exact Hpos|].
  apply (IH (ob_moving o)); auto. lra.
Qed.

Lemma identity_pick {A} (l : list A) r :
  length l = num_examples -> pick (identity_shuffle r) l = l.
Proof. intros H. unfold identity_shuffle. rewrite <- H. apply pick_seq. Qed.

Lemma alternating_iterator_rows :
  it_rows (reset (train_data (setup true alternating_draws identity_shuffle)))
  = alternating_rows.
Proof.
  cbn [setup train_data NDArrayIter_new reset it_rows it_shuffle it_resets].
  fold alternating_rows.
  assert (Hlen : length alternating_rows = num_examples) by apply dataset_length.
  now rewrite !identity_pick by (rewrite ?identity_pick; exact Hlen).
Qed.

Lemma alternating_slices k :
  (k <= 2500)%nat ->
  Forall (fun b => b = alternating_batch)
    (map (slice batch_size alternating_rows) (seq 0 k)).
Proof.
  intros Hk. apply Forall_map, Forall_forall. intros j Hj. apply in_seq in Hj.
  apply alternating_slice. lia.
Qed.

(** Every batch of the first pass is the alternating batch. *)
Lemma alternating_batches (bsl : list (Batch Q)) :
  pass 2500 (reset (train_data (setup true alternating_draws identity_shuffle)))
    = Some bsl ->
  Forall (fun b => b = alternating_batch) bsl.
Proof.
  pose proof alternating_iterator_rows as Hrows.
  set (it := reset (train_data (setup true alternating_draws identity_shuffle))) in *.
  assert (Hbs : it_batch_size it = batch_size) by reflexivity.
  assert (Hcur : it_cursor it = (batch_size * 0)%nat) by reflexivity.
  assert (Hlen : length (it_rows it) = (batch_size * (0 + 2500))%nat).
  { rewrite Hrows. apply dataset_length. }
  assert (Hpos : (0 < batch_size)%nat) by (unfold batch_size; lia).
  pose proof (pass_slices batch_size 2500 2500 it 0 Hbs Hpos Hcur Hlen (le_n 2500)) as Hp.
  rewrite Hrows in Hp. clearbody it.
  pose proof (alternating_slices 2500 (le_n 2500)) as Hall.
  intros Hp'. rewrite Hp in Hp'.
  replace bsl with (map (slice batch_size alternating_rows) (seq 0 2500)) by congruence.
  exact Hall.
Qed.

(** C1, as stated, fails.  On the alternating draws with the rows left in
    place, the moving loss after the last batch of epoch 0 is positive, and
    the moving loss after the first batch of epoch 1 is [0.01 * s]: it is
    not [0.99] times the value epoch 0 left plus [0.01 * s]. *)
Lemma moving_loss_not_carried_over :
  exists nb' o_last o_first,
    notebook (AG := analytic_autograd) 2500 alternating_draws identity_shuffle = Ok nb' /\
    nth_error (observations (trace nb')) 2499 = Some o_last /\
    nth_error (observations (trace nb')) 2500 = Some o_first /\
    ob_epoch o_last = 0%nat /\ ob_epoch o_first = 1%nat /\ ob_index o_first = 0%nat /\
    ~ ob_moving o_first == 0.99 * ob_moving o_last + 0.01 * ob_loss_sum o_first.
Proof.
  destruct (notebook_epochs (AG := analytic_autograd) 2500 alternating_draws
              identity_shuffle identity_shuffle_valid (le_n 2500))
    as (nb1 & nb2 & obs0 & obs1 & Hn & H0 & H1 & Hobs & _ & _).
  pose proof (er_count H0) as Hc0. pose proof (er_count H1) as Hc1.
  destruct (nth_error obs0 2499) as [o_last|] eqn:Hlast;
    [|apply nth_error_None in Hlast; lia].
  destruct obs1 as [|o_first rest]; [discriminate|].
  exists nb2, o_last, o_first.
  split; [exact Hn|]. rewrite Hobs.
  split; [rewrite nth_error_app1 by lia; exact Hlast|].
  split; [rewrite nth_error_app2 by lia; rewrite Hc0, Nat.sub_diag; reflexivity|].
  pose proof (lr_obs (er_loop H0)) as Hok0. rewrite Forall_forall in Hok0.
  pose proof (nth_error_In _ _ Hlast) as Hin.
  split; [exact (proj1 (Hok0 _ Hin))|].
  pose proof (lr_obs (er_loop H1)) as Hok1. inversion Hok1 as [|? ? Hof _]; subst.
  split; [exact (proj1 Hof)|].
  pose proof (lr_indices (er_loop H1)) as Hi1. cbn [map length seq] in Hi1.
  split; [congruence|].
  (* the moving loss epoch 0 leaves is positive *)
  assert (Hsum : Forall (fun o => 0 < ob_loss_sum o) obs0).
  { pose proof (alternating_batches _ (er_pass H0)) as Hb.
    rewrite Forall_map in Hb. rewrite Forall_forall in Hb |- *.
    intros o Ho. destruct (Hok0 o Ho) as (_ & _ & (d & _ & Hf) & ->).
    rewrite (Hb o Ho) in *. exact (alternating_loss_positive d _ Hf). }
  pose proof (ema_chain_positive obs0 zero (Qle_refl 0) (lr_chain (er_loop H0)) Hsum) as Hpos.
  rewrite Forall_forall in Hpos. specialize (Hpos _ Hin).
  (* epoch 1 starts again from zero *)
  destruct (lr_chain (er_loop H1)) as [Hfirst _].
  cbn [add mul lit zero Q_arith] in Hfirst. unfold zero in Hfirst.
  cbn [lit Q_arith] in Hfirst.
  rewrite Hfirst. intros Heq. lra.
Qed.

End AlternatingRun.

(** * Further properties of the training cell *)

Section TurnFacts.

Context {F : Type} {AF : Arith F} {AG : Autograd F}.

Implicit Types (nb : Notebook F) (b : Batch F) (d : Dense F).

(** A turn of the loop body that returns has made a forward pass, an
    optimizer step and an update of a bound moving loss. *)
Lemma batch_body_inv e i b nb nb' :
  batch_body e i b nb = Ok nb' ->
  exists out d' m,
    forward (net nb) (data b) = Ok out /\
    step (trainer nb) (length (data b)) (backward (net nb) (data b) (label b)) (net nb)
      = Ok d' /\
    moving_loss nb = Some m /\
    let m' := add (mul (lit 0.99) m) (mul (lit 0.01) (nd_sum (loss out (label b)))) in
    let o := {| ob_epoch := e; ob_index := i; ob_batch := b; ob_output := out;
                ob_step_arg := length (data b);
                ob_loss_sum := nd_sum (loss out (label b)); ob_moving := m' |} in
    trace nb' = trace nb ++ [EvBatch o] /\
    stdout nb' = stdout nb ++ line_of o /\
    net nb' = d' /\ moving_loss nb' = Some m' /\
    X nb' = X nb /\ y nb' = y nb /\ trainer nb' = trainer nb /\
    train_data nb' = train_data nb.
Proof.
  unfold batch_body. remember (i mod 500 =? 0) as c eqn:Hc. intros H.
  destruct (forward (net nb) (data b)) as [out|] eqn:Hf; [|discriminate].
  cbn [bind] in H.
  destruct (step _ _ _ _) as [d'|] eqn:Hs; [|discriminate].
  cbn [bind] in H. unfold read_moving_loss in H. cbn [set_net moving_loss] in H.
  destruct (moving_loss nb) as [m|] eqn:Hm; [|discriminate].
  cbn [bind] in H. injection H as <-.
  exists out, d', m.
  split; [reflexivity|]. split; [reflexivity|]. split; [reflexivity|].
  cbv zeta. unfold line_of. cbn [ob_index ob_epoch ob_moving]. rewrite <- Hc.
  clear Hc. destruct c;
    cbn [print record_event assign_moving_loss set_net trace stdout net
         moving_loss X y trainer train_data];
    rewrite ?app_nil_r; repeat split; reflexivity.
Qed.

Lemma same_source_refl (it : NDArrayIter F) : same_source it it.
Proof. repeat split. Qed.

Lemma same_source_trans (a b c : NDArrayIter F) :
  same_source a b -> same_source b c -> same_source a c.
Proof.
  intros (H1 & H2 & H3 & H4) (K1 & K2 & K3 & K4). repeat split; congruence.
Qed.

(** Every completed run of the inner loop, from any state, with any bound. *)
Lemma for_batches_effect e : forall fuel i nb nb',
  for_batches fuel i e nb = Ok nb' -> exists obs, loop_effect e i nb nb' obs.
Proof.
  induction fuel as [|fuel IH]; intros i nb nb' H; cbn [for_batches] in H;
    destruct (next (train_data nb)) as [[b it']|] eqn:Hn; try discriminate.
  1, 3: injection H as <-; exists []; constructor; cbn [map flat_map length seq];
        rewrite ?app_nil_r; auto using same_source_refl.
  destruct (batch_body e i b (set_train_data it' nb)) as [nb1|] eqn:Hb; [|discriminate].
  cbn [bind] in H.
  destruct (batch_body_inv e i b _ _ Hb)
    as (out & d' & m & Hf & Hs & Hm & Ht & Hout & Hnet & Hm' & HX & Hy & Htr & Htd).
  cbv zeta in Ht, Hout, Hm'.
  cbn [set_train_data net trainer moving_loss trace stdout X y train_data] in *.
  destruct (IH (S i) nb1 nb' H) as (obs & E).
  set (o := {| ob_epoch := e; ob_index := i; ob_batch := b; ob_output := out;
               ob_step_arg := length (data b);
               ob_loss_sum := nd_sum (loss out (label b));
               ob_moving := add (mul (lit 0.99) m)
                              (mul (lit 0.01) (nd_sum (loss out (label b)))) |}) in *.
  exists (o :: obs). destruct E.
  constructor; cbn [map flat_map length seq].
  - rewrite le_trace0, Ht, <- app_assoc. reflexivity.
  - rewrite le_stdout0, Hout, <- app_assoc. reflexivity.
  - congruence.
  - congruence.
  - congruence.
  - rewrite le_units0, Hnet. unfold step in Hs.
    destruct (length (data b)); [discriminate|].
    destruct (weight (net nb)); [|discriminate].
    destruct (bias (net nb)); [|discriminate].
    injection Hs as <-. reflexivity.
  - cbn [replay ob_batch o]. unfold sgd_turn. rewrite Hf. cbn [bind]. rewrite Hs.
    cbn [bind]. rewrite <- Hnet, <- Htr. exact le_net0.
  - cbn [replay_outputs ob_batch ob_output o]. unfold sgd_turn. rewrite Hf. cbn [bind].
    rewrite Hs. cbn [bind]. rewrite <- Hnet, <- Htr, le_outputs0. reflexivity.
  - f_equal. exact le_indices0.
  - constructor; [cbn; auto | exact le_each0].
  - exists m. split; [exact Hm|]. split.
    + cbn [ema_chain]. split; [reflexivity|].
      destruct obs as [|o2 obs]; [exact I|].
      destruct le_moving0 as (m2 & Hm2 & Hc & _).
      rewrite Hm' in Hm2. injection Hm2 as <-. exact Hc.
    + rewrite last_cons. destruct obs as [|o2 obs].
      * rewrite le_moving0, Hm'. reflexivity.
      * destruct le_moving0 as (m2 & Hm2 & _ & Hl).
        rewrite Hm' in Hm2. injection Hm2 as <-. exact Hl.
  - apply same_source_trans with (train_data nb1); [|exact le_source0].
    rewrite Htd. exact (next_same_source _ _ _ Hn).
  - exact le_exhausted0.
Qed.

(** Every completed run of the training cell: two completed inner loops. *)
Lemma train_effect fuel nb nb' :
  train fuel nb = Ok nb' ->
  exists nb1 obs0 obs1,
    loop_effect 0 0 (epoch_entry 0 nb) nb1 obs0 /\
    loop_effect 1 0 (epoch_entry 1 nb1) nb' obs1.
Proof.
  unfold train, epochs. cbn [seq for_epochs]. rewrite !epoch_body_entry.
  destruct (for_batches fuel 0 0 (epoch_entry 0 nb)) as [nb1|] eqn:H0; [|discriminate].
  cbn [bind]. rewrite epoch_body_entry.
  destruct (for_batches fuel 0 1 (epoch_entry 1 nb1)) as [nb2|] eqn:H1; [|discriminate].
  cbn [bind]. intros H; injection H as <-.
  destruct (for_batches_effect 0 _ _ _ _ H0) as (obs0 & E0).
  destruct (for_batches_effect 1 _ _ _ _ H1) as (obs1 & E1).
  exists nb1, obs0, obs1. split; assumption.
Qed.

Lemma loop_effect_moving_bound e i nb nb' obs :
  loop_effect e i nb nb' obs -> moving_loss nb <> None -> moving_loss nb' <> None.
Proof.
  intros E Hm. pose proof (le_moving E) as H. destruct obs as [|o obs].
  - congruence.
  - destruct H as (m & _ & _ & ->). discriminate.
Qed.

(** X1.  Whatever the state it starts from and however it ends, a training
    run that returns has not touched the dataset, the learning rate, the
    number of inputs of the layer, the batch size or the source of shuffle
    orders; it has reset the iterator exactly twice and leaves the moving
    loss bound. *)
Theorem training_keeps_configuration fuel nb nb' :
  train fuel nb = Ok nb' ->
  X nb' = X nb /\ y nb' = y nb /\
  trainer nb' = trainer nb /\
  in_units (net nb') = in_units (net nb) /\
  it_batch_size (train_data nb') = it_batch_size (train_data nb) /\
  it_shuffle (train_data nb') = it_shuffle (train_data nb) /\
  it_resets (train_data nb') = 2 + it_resets (train_data nb) /\
  moving_loss nb' <> None.
Proof.
  intros H. destruct (train_effect _ _ _ H) as (nb1 & obs0 & obs1 & E0 & E1).
  destruct (le_source E0) as (_ & Hb0 & Hs0 & Hr0).
  destruct (le_source E1) as (_ & Hb1 & Hs1 & Hr1).
  cbn [epoch_entry record_event set_train_data assign_moving_loss train_data
       reset it_batch_size it_shuffle it_resets] in *.
  repeat split.
  - rewrite (le_X E1). cbn. rewrite (le_X E0). reflexivity.
  - rewrite (le_y E1). cbn. rewrite (le_y E0). reflexivity.
  - rewrite (le_trainer E1). cbn. rewrite (le_trainer E0). reflexivity.
  - rewrite (le_units E1). cbn. rewrite (le_units E0). reflexivity.
  - congruence.
  - congruence.
  - rewrite Hr1, Hr0. reflexivity.
  - apply (loop_effect_moving_bound _ _ _ _ _ E1). discriminate.
Qed.

(** X2.  After a training run that returned, the iterator is exhausted:
    looping over it again without a reset takes no turn and changes
    nothing. *)
Theorem exhausted_until_reset fuel nb nb' :
  train fuel nb = Ok nb' ->
  forall fuel' i e,
    for_batches fuel' i e nb' = Ok nb' /\ pass fuel' (train_data nb') = Some [].
Proof.
  intros H fuel' i e.
  destruct (train_effect _ _ _ H) as (nb1 & obs0 & obs1 & _ & E1).
  pose proof (le_exhausted E1) as Hn.
  destruct fuel'; cbn [for_batches pass]; rewrite Hn; auto.
Qed.

Lemma replay_app (t : Trainer F) : forall l1 l2 d d1,
  replay t d l1 = Ok d1 -> replay t d (l1 ++ l2) = replay t d1 l2.
Proof.
  induction l1 as [|b l1 IH]; intros l2 d d1 H; cbn [replay app] in *.
  - injection H as <-. reflexivity.
  - destruct (sgd_turn t d b) as [d'|]; [|discriminate]. cbn [bind] in *.
    apply IH. exact H.
Qed.

Lemma replay_outputs_app (t : Trainer F) : forall l1 l2 d d1 o1 o2,
  replay t d l1 = Ok d1 ->
  replay_outputs t d l1 = Ok o1 ->
  replay_outputs t d1 l2 = Ok o2 ->
  replay_outputs t d (l1 ++ l2) = Ok (o1 ++ o2).
Proof.
  induction l1 as [|b l1 IH]; intros l2 d d1 o1 o2 H H1 H2;
    cbn [replay replay_outputs app] in *.
  - injection H as <-. injection H1 as <-. exact H2.
  - destruct (forward d (data b)) as [out|]; [|discriminate]. cbn [bind] in *.
    destruct (sgd_turn t d b) as [d'|]; [|discriminate]. cbn [bind] in *.
    destruct (replay_outputs t d' l1) as [outs|] eqn:Ho; [|discriminate].
    cbn [bind] in H1. injection H1 as <-.
    rewrite (IH l2 d' d1 outs o2 H Ho H2). reflexivity.
Qed.

(** X3.  The parameters a training run ends with are those of a plain
    succession of optimizer steps over the batches of its turns, in order
    and across the epoch boundary; the predictions of every turn are those
    of the parameters before that turn's step, its loss sum adds up the
    losses of these predictions, and its step argument is the number of
    rows of its batch.  Neither the moving loss nor the progress output
    enters the parameters. *)
Theorem parameters_follow_the_steps fuel nb nb' :
  train fuel nb = Ok nb' ->
  exists obs,
    observations (trace nb') = observations (trace nb) ++ obs /\
    replay (trainer nb) (net nb) (map (@ob_batch F) obs) = Ok (net nb') /\
    replay_outputs (trainer nb) (net nb) (map (@ob_batch F) obs)
      = Ok (map (@ob_output F) obs) /\
    Forall (fun o => ob_step_arg o = length (data (ob_batch o)) /\
                     ob_loss_sum o = nd_sum (loss (ob_output o) (label (ob_batch o))))
           obs.
Proof.
  intros H. destruct (train_effect _ _ _ H) as (nb1 & obs0 & obs1 & E0 & E1).
  exists (obs0 ++ obs1).
  pose proof (le_net E0) as N0. pose proof (le_net E1) as N1.
  pose proof (le_outputs E0) as O0. pose proof (le_outputs E1) as O1.
  pose proof (le_trainer E0) as T0.
  cbn [epoch_entry record_event set_train_data assign_moving_loss net trainer] in *.
  rewrite T0 in N1, O1.
  split; [|split; [|split]].
  - rewrite (le_trace E1). cbn [epoch_entry record_event set_train_data
                                assign_moving_loss trace].
    rewrite (le_trace E0). cbn [epoch_entry record_event set_train_data
                                assign_moving_loss trace].
    rewrite !observations_app.
    change (observations [EvReset F 0]) with (@nil (Obs F)).
    change (observations [EvReset F 1]) with (@nil (Obs F)).
    rewrite !observations_batches, !app_nil_r, app_assoc. reflexivity.
  - rewrite map_app, (replay_app _ _ _ _ _ N0). exact N1.
  - rewrite !map_app. apply (replay_outputs_app _ _ _ _ _ _ _ N0 O0 O1).
  - apply Forall_app. split.
    + eapply Forall_impl; [|exact (le_each E0)]. intros o (_ & Hs & Hl). auto.
    + eapply Forall_impl; [|exact (le_each E1)]. intros o (_ & Hs & Hl). auto.
Qed.

Lemma pick_nil {A} (order : list nat) : pick order (@nil A) = [].
Proof.
  unfold pick. induction order as [|k order IH]; cbn [flat_map]; [reflexivity|].
  rewrite IH. destruct k; reflexivity.
Qed.

Lemma pick_incl {A} (order : list nat) (l : list A) x :
  In x (pick order l) -> In x l.
Proof.
  unfold pick. intros H. apply in_flat_map in H. destruct H as (k & _ & Hk).
  destruct (nth_error l k) as [a|] eqn:E; [|contradiction].
  destruct Hk as [<-|[]]. exact (nth_error_In _ _ E).
Qed.

(** X4.  On an iterator that holds no rows the training cell takes no
    turn, whatever the bound and whether or not the model was initialized:
    it returns, having reset the iterator twice, with the moving loss at 0,
    nothing printed and the parameters as they were. *)
Theorem training_on_no_data fuel nb :
  it_rows (train_data nb) = [] ->
  exists nb',
    train fuel nb = Ok nb' /\
    trace nb' = trace nb ++ [EvReset F 0; EvReset F 1] /\
    moving_loss nb' = Some zero /\
    stdout nb' = stdout nb /\
    net nb' = net nb.
Proof.
  intros Hrows.
  assert (Hnext : forall it : NDArrayIter F, it_rows it = [] -> next (reset it) = None).
  { intros it Hit. apply next_exhausted. cbn [reset it_rows it_cursor].
    rewrite Hit, pick_nil. cbn. lia. }
  assert (Hloop : forall e nb0, it_rows (train_data nb0) = [] ->
            for_batches fuel 0 e (epoch_entry e nb0) = Ok (epoch_entry e nb0)).
  { intros e nb0 H0. destruct fuel; cbn [for_batches];
      change (train_data (epoch_entry e nb0)) with (reset (train_data nb0));
      now rewrite (Hnext _ H0). }
  exists (epoch_entry 1 (epoch_entry 0 nb)).
  split.
  - unfold train, epochs. cbn [seq for_epochs]. rewrite !epoch_body_entry.
    rewrite (Hloop 0 nb Hrows). cbn [bind]. rewrite epoch_body_entry.
    rewrite (Hloop 1 (epoch_entry 0 nb)); [reflexivity|].
    cbn [epoch_entry record_event set_train_data assign_moving_loss train_data
         reset it_rows].
    rewrite Hrows. apply pick_nil.
  - cbn [epoch_entry record_event set_train_data assign_moving_loss trace
         moving_loss stdout net].
    rewrite <- app_assoc. repeat split.
Qed.

Lemma forward_errors d x err :
  forward d x = Err err ->
  err = ShapeMismatch \/ exists name, err = UninitializedParameter name.
Proof.
  unfold forward. destruct (weight d); [destruct (bias d)|];
    [destruct (forallb _ _)|..]; intros H; try discriminate;
    injection H as <-; eauto.
Qed.

Lemma step_errors (t : Trainer F) n g d err :
  step t n g d = Err err ->
  err = ZeroBatchSize \/ exists name, err = UninitializedParameter name.
Proof.
  unfold step. destruct n; [|destruct (weight d); [destruct (bias d)|]];
    intros H; try discriminate; injection H as <-; eauto.
Qed.

Lemma batch_body_bound e i b nb err :
  batch_body e i b nb = Err err -> moving_loss nb <> None ->
  forall name, err <> UnboundName name.
Proof.
  unfold batch_body. intros H Hm name.
  destruct (forward (net nb) (data b)) as [out|e1] eqn:Hf.
  - cbn [bind] in H.
    destruct (step _ _ _ _) as [d'|e2] eqn:Hs.
    + cbn [bind] in H. unfold read_moving_loss in H. cbn [set_net moving_loss] in H.
      destruct (moving_loss nb); [|congruence]. cbn [bind] in H. discriminate.
    + cbn [bind] in H. injection H as <-.
      destruct (step_errors _ _ _ _ _ Hs) as [->|(n & ->)]; discriminate.
  - cbn [bind] in H. injection H as <-.
    destruct (forward_errors _ _ _ Hf) as [->|(n & ->)]; discriminate.
Qed.

Lemma for_batches_bound e : forall fuel i nb err,
  for_batches fuel i e nb = Err err -> moving_loss nb <> None ->
  forall name, err <> UnboundName name.
Proof.
  induction fuel as [|fuel IH]; intros i nb err H Hm name; cbn [for_batches] in H;
    destruct (next (train_data nb)) as [[b it']|] eqn:Hn; try discriminate.
  - injection H as <-. discriminate.
  - destruct (batch_body e i b (set_train_data it' nb)) as [nb1|e1] eqn:Hb.
    + cbn [bind] in H. apply (IH _ _ _ H).
      destruct (batch_body_inv _ _ _ _ _ Hb) as (? & ? & ? & _ & _ & _ & K).
      cbv zeta in K. destruct K as (_ & _ & _ & -> & _). discriminate.
    + cbn [bind] in H. injection H as <-.
      apply (batch_body_bound _ _ _ _ _ Hb). exact Hm.
Qed.

Lemma train_bound fuel nb name : train fuel nb <> Err (UnboundName name).
Proof.
  unfold train, epochs. cbn [seq for_epochs]. rewrite !epoch_body_entry.
  destruct (for_batches fuel 0 0 (epoch_entry 0 nb)) as [nb1|e0] eqn:H0.
  - cbn [bind]. rewrite epoch_body_entry.
    destruct (for_batches fuel 0 1 (epoch_entry 1 nb1)) as [nb2|e1] eqn:H1.
    + discriminate.
    + cbn [bind]. intros H; injection H as ->.
      apply (for_batches_bound _ _ _ _ _ H1) with (name := name);
        [discriminate | reflexivity].
  - cbn [bind]. intros H; injection H as ->.
    apply (for_batches_bound _ _ _ _ _ H0) with (name := name);
      [discriminate | reflexivity].
Qed.

(** X5.  From whatever state and with whatever bound, a training run that
    does not return has stopped on an uninitialized parameter, a shape
    mismatch, a batch of no rows or the bound on its turns: it never fails
    because [moving_loss] is read before it is assigned, since every epoch
    assigns it before its first turn. *)
Theorem training_failures fuel nb err :
  train fuel nb = Err err ->
  err = OutOfFuel \/ err = ShapeMismatch \/ err = ZeroBatchSize \/
  exists name, err = UninitializedParameter name.
Proof.
  intros H. destruct err as [name| | |name|]; eauto.
  exfalso. exact (train_bound fuel nb name H).
Qed.

(** The inner loop on initialized parameters and fitting rows returns or
    runs out of its bound. *)
Lemma for_batches_safe e : forall fuel i nb,
  is_initialized (net nb) = true ->
  0 < it_batch_size (train_data nb) ->
  Forall (fun r => length (fst r) = in_units (net nb)) (it_rows (train_data nb)) ->
  moving_loss nb <> None ->
  (exists nb', for_batches fuel i e nb = Ok nb' /\
               is_initialized (net nb') = true /\
               in_units (net nb') = in_units (net nb) /\
               same_source (train_data nb) (train_data nb')) \/
  for_batches fuel i e nb = Err OutOfFuel.
Proof.
  induction fuel as [|fuel IH]; intros i nb Hi Hbs Hfit Hm; cbn [for_batches];
    destruct (next (train_data nb)) as [[b it']|] eqn:Hn;
    try (left; exists nb; auto using same_source_refl; fail); auto.
  destruct (moving_loss nb) as [m|] eqn:Hm'; [|congruence].
  pose proof (next_fits _ _ _ _ Hn Hbs Hfit) as Hb.
  destruct (batch_body_ok e i b (set_train_data it' nb) m Hi Hb Hm')
    as (nb1 & Hbody & Htd & o & _ & _ & Hrun).
  rewrite Hbody. cbn [bind].
  pose proof (lr_units Hrun) as Hu. pose proof (lr_net Hrun) as Hn1.
  pose proof (lr_moving Hrun) as Hm1.
  cbn [set_train_data net train_data] in Hu, Htd.
  destruct (next_same_source _ _ _ Hn) as (Hr & Hb' & Hs & Hrs).
  destruct (IH (S i) nb1) as [(nb' & Hfor & Hi' & Hu' & Hsrc)|Herr]; auto.
  - rewrite Htd, Hb'. exact Hbs.
  - rewrite Htd, Hr, Hu. exact Hfit.
  - rewrite Hm1. discriminate.
  - left. exists nb'. repeat split; auto; try congruence.
    all: destruct Hsrc as (S1 & S2 & S3 & S4); rewrite Htd in *; congruence.
Qed.

(** X6.  From a state with initialized parameters, a positive batch size
    and feature rows as wide as the layer, the training cell raises no
    exception, whatever orders the shuffles produce: it returns, or the
    bound on the turns of an inner loop is too small. *)
Theorem training_raises_no_exception fuel nb :
  is_initialized (net nb) = true ->
  0 < it_batch_size (train_data nb) ->
  Forall (fun r => length (fst r) = in_units (net nb)) (it_rows (train_data nb)) ->
  (exists nb', train fuel nb = Ok nb') \/ train fuel nb = Err OutOfFuel.
Proof.
  intros Hi Hbs Hfit.
  assert (Hentry : forall e nb0,
            is_initialized (net nb0) = true ->
            0 < it_batch_size (train_data nb0) ->
            Forall (fun r => length (fst r) = in_units (net nb0))
                   (it_rows (train_data nb0)) ->
            (exists nb', for_batches fuel 0 e (epoch_entry e nb0) = Ok nb' /\
                         is_initialized (net nb') = true /\
                         0 < it_batch_size (train_data nb') /\
                         Forall (fun r => length (fst r) = in_units (net nb'))
                                (it_rows (train_data nb'))) \/
            for_batches fuel 0 e (epoch_entry e nb0) = Err OutOfFuel).
  { intros e nb0 Hi0 Hbs0 Hfit0.
    destruct (for_batches_safe e fuel 0 (epoch_entry e nb0))
      as [(nb' & Hfor & Hi' & Hu' & (S1 & S2 & _ & _))|Herr]; auto.
    - cbn [epoch_entry record_event set_train_data assign_moving_loss net
           train_data reset it_rows].
      rewrite Forall_forall in *. intros r Hr. apply Hfit0.
      exact (pick_incl _ _ _ Hr).
    - discriminate.
    - left. exists nb'. repeat split; auto.
      + rewrite S2. exact Hbs0.
      + rewrite S1, Hu'.
        cbn [epoch_entry record_event set_train_data assign_moving_loss net
             train_data reset it_rows].
        rewrite Forall_forall in *. intros r Hr. apply Hfit0.
        exact (pick_incl _ _ _ Hr). }
  unfold train, epochs. cbn [seq for_epochs]. rewrite !epoch_body_entry.
  destruct (Hentry 0 nb Hi Hbs Hfit) as [(nb1 & H0 & Hi1 & Hbs1 & Hfit1)|H0];
    rewrite H0; cbn [bind]; [|now right].
  rewrite epoch_body_entry.
  destruct (Hentry 1 nb1 Hi1 Hbs1 Hfit1) as [(nb2 & H1 & _)|H1];
    rewrite H1; cbn [bind]; [left; now exists nb2 | now right].
Qed.

Lemma line_keys (e : nat) : forall (obs : list (Obs F)) i,
  map (@ob_index F) obs = seq i (length obs) ->
  Forall (fun o => ob_epoch o = e) obs ->
  map (fun l => (ln_epoch l, ln_batch l)) (flat_map (@line_of F) obs) =
  map (fun k => (e, k)) (filter (fun k => k mod 500 =? 0) (seq i (length obs))).
Proof.
  induction obs as [|o obs IH]; intros i Hidx He; [reflexivity|].
  cbn [map length seq flat_map filter] in *.
  injection Hidx as Ho Hrest. inversion He as [|? ? Heo Her]; subst.
  rewrite map_app, (IH (S (ob_index o)) Hrest Her). unfold line_of.
  destruct (ob_index o mod 500 =? 0); reflexivity.
Qed.

Lemma line_values (obs : list (Obs F)) :
  Forall (fun l => exists o, In o obs /\ ob_epoch o = ln_epoch l /\
                             ob_index o = ln_batch l /\ ob_moving o = ln_moving l)
         (flat_map (@line_of F) obs).
Proof.
  apply Forall_forall. intros l Hl. apply in_flat_map in Hl.
  destruct Hl as (o & Ho & Hl). exists o. unfold line_of in Hl.
  destruct (ob_index o mod 500 =? 0); [|contradiction].
  destruct Hl as [<-|[]]. cbn. auto.
Qed.

Lemma printing_turns :
  filter (fun k => k mod 500 =? 0) (seq 0 2500) = [0; 500; 1000; 1500; 2000].
Proof. vm_compute. reflexivity. Qed.

(** X7.  The run of the notebook prints exactly ten progress lines: for
    epoch 0 and then for epoch 1, those of the turns 0, 500, 1000, 1500 and
    2000, each showing the moving loss as that turn left it. *)
Theorem progress_lines fuel (g : Rng F) shuffle :
  valid_shuffle num_examples shuffle -> 2500 <= fuel ->
  exists nb',
    notebook fuel g shuffle = Ok nb' /\
    map (fun l => (ln_epoch l, ln_batch l)) (stdout nb') =
      [(0, 0); (0, 500); (0, 1000); (0, 1500); (0, 2000);
       (1, 0); (1, 500); (1, 1000); (1, 1500); (1, 2000)] /\
    Forall (fun l => exists o, In o (observations (trace nb')) /\
                               ob_epoch o = ln_epoch l /\
                               ob_index o = ln_batch l /\
                               ob_moving o = ln_moving l)
           (stdout nb').
Proof.
  intros Hv Hfuel.
  destruct (notebook_epochs fuel g shuffle Hv Hfuel)
    as (nb1 & nb2 & obs0 & obs1 & Hn & H0 & H1 & Hobs & _ & _).
  exists nb2. split; [exact Hn|].
  assert (Hout : stdout nb2 = flat_map (@line_of F) obs0 ++ flat_map (@line_of F) obs1).
  { rewrite (lr_stdout (er_loop H1)). f_equal.
    change (stdout (epoch_entry 1 nb1)) with (stdout nb1).
    rewrite (lr_stdout (er_loop H0)). reflexivity. }
  assert (Hkeys : forall e nb nb' obs,
            epoch_run e 2500 batch_size nb nb' obs ->
            map (fun l => (ln_epoch l, ln_batch l)) (flat_map (@line_of F) obs) =
            map (fun k => (e, k)) [0; 500; 1000; 1500; 2000]).
  { intros e nb nb' obs H.
    pose proof (lr_indices (er_loop H)) as Hi. rewrite length_map in Hi.
    rewrite (line_keys e obs 0 Hi).
    - rewrite (er_count H), printing_turns. reflexivity.
    - eapply Forall_impl; [|exact (lr_obs (er_loop H))]. now intros o [He _]. }
  rewrite Hout. split.
  - rewrite map_app, (Hkeys _ _ _ _ H0), (Hkeys _ _ _ _ H1). reflexivity.
  - rewrite Hobs. apply Forall_app. split.
    + eapply Forall_impl; [|exact (line_values obs0)].
      intros l (o & Ho & K). exists o. split; [apply in_or_app; now left | exact K].
    + eapply Forall_impl; [|exact (line_values obs1)].
      intros l (o & Ho & K). exists o. split; [apply in_or_app; now right | exact K].
Qed.

End TurnFacts.

(** * The turns of the notebook's run: moving loss and step argument *)

Section RunFacts.

Context {F : Type} {AF : Arith F} {AG : Autograd F}.

Implicit Types (nb : Notebook F) (b : Batch F) (d : Dense F).

(** Passing [n] to every step is what the loop does when every batch has
    [n] rows. *)
Lemma replay_with_length n (t : Trainer F) : forall bsl d,
  Forall (fun b => length (data b) = n) bsl ->
  replay_with n t d bsl = replay t d bsl.
Proof.
  induction bsl as [|b bsl IH]; intros d Hall; cbn [replay_with replay];
    [reflexivity|].
  inversion Hall as [|? ? Hb Hrest]; subst. unfold sgd_turn.
  destruct (forward d (data b)) as [out|]; [|reflexivity]. cbn [bind].
  destruct (step t (length (data b)) (backward d (data b) (label b)) d) as [d'|];
    [|reflexivity].
  cbn [bind]. apply IH. exact Hrest.
Qed.

Lemma EvBatch_inj (obs obs' : list (Obs F)) :
  map (@EvBatch F) obs = map (@EvBatch F) obs' -> obs = obs'.
Proof.
  revert obs'. induction obs as [|o obs IH]; intros [|o' obs'] H; cbn in H;
    try discriminate; [reflexivity|].
  injection H as -> H. f_equal. apply IH. exact H.
Qed.

(** A run of the inner loop over the turns [obs] made the forward passes
    and the optimizer steps of these turns, one after the other. *)
Lemma loop_run_replay fuel e i m bsl nb nb' obs :
  for_batches fuel i e nb = Ok nb' ->
  loop_run e i m bsl nb nb' obs ->
  replay (trainer nb) (net nb) (map (@ob_batch F) obs) = Ok (net nb') /\
  replay_outputs (trainer nb) (net nb) (map (@ob_batch F) obs)
    = Ok (map (@ob_output F) obs).
Proof.
  intros Hfor Hrun.
  destruct (for_batches_effect e _ _ _ _ Hfor) as (obs' & E).
  assert (Heq : obs' = obs).
  { apply EvBatch_inj. pose proof (le_trace E) as H1.
    rewrite (lr_trace Hrun) in H1.
    apply app_inv_head in H1. now symmetry. }
  subst obs'. split; [exact (le_net E) | exact (le_outputs E)].
Qed.

Lemma epoch_run_replay fuel e k bs nb nb' obs :
  epoch_body fuel e nb = Ok nb' ->
  epoch_run e k bs nb nb' obs ->
  replay (trainer nb) (net nb) (map (@ob_batch F) obs) = Ok (net nb') /\
  replay_outputs (trainer nb) (net nb) (map (@ob_batch F) obs)
    = Ok (map (@ob_output F) obs).
Proof.
  intros He Hrun. rewrite epoch_body_entry in He.
  exact (loop_run_replay _ _ _ _ _ _ _ _ He (er_loop Hrun)).
Qed.

(** The notebook's run, epoch by epoch: the state between the epochs, the
    turns of each epoch and what they did. *)
Lemma notebook_turns fuel (g : Rng F) shuffle :
  valid_shuffle num_examples shuffle -> 2500 <= fuel ->
  exists nb1 nb2 obs0 obs1,
    epoch_body fuel 0 (setup true g shuffle) = Ok nb1 /\
    epoch_body fuel 1 nb1 = Ok nb2 /\
    notebook fuel g shuffle = Ok nb2 /\
    epoch_run 0 2500 batch_size (setup true g shuffle) nb1 obs0 /\
    epoch_run 1 2500 batch_size nb1 nb2 obs1 /\
    trace nb2 = EvReset F 0 :: map (@EvBatch F) obs0
                ++ EvReset F 1 :: map (@EvBatch F) obs1 /\
    observations (trace nb2) = obs0 ++ obs1 /\
    epoch_observations 0 (trace nb2) = obs0 /\
    epoch_observations 1 (trace nb2) = obs1.
Proof.
  intros Hv Hfuel.
  assert (Hpos : 0 < batch_size) by (unfold batch_size; lia).
  destruct (epoch_body_run fuel 0 (setup true g shuffle) batch_size 2500
              (setup_ready g shuffle Hv) Hpos Hfuel) as (nb1 & obs0 & He0 & H0 & Hr1).
  destruct (epoch_body_run fuel 1 nb1 batch_size 2500 Hr1 Hpos Hfuel)
    as (nb2 & obs1 & He1 & H1 & _).
  exists nb1, nb2, obs0, obs1.
  destruct (epoch_runs_observations 2500 batch_size (setup true g shuffle) nb1 nb2
              obs0 obs1 eq_refl H0 H1) as (Ht & Ho & Ho0 & Ho1).
  refine (conj He0 (conj He1 (conj _ (conj H0 (conj H1 (conj Ht (conj Ho (conj Ho0 Ho1)))))))).
  unfold notebook, train, epochs. cbn [seq for_epochs]. rewrite He0. cbn [bind].
  rewrite He1. reflexivity.
Qed.

(** What the turns of one epoch of 2500 batches of 4 rows look like. *)
Lemma epoch_run_turns e nb nb' obs :
  epoch_run e 2500 batch_size nb nb' obs ->
  length obs = 2500 /\
  map (@ob_index F) obs = seq 0 2500 /\
  ema_chain zero obs /\
  Forall (obs_ok e) obs /\
  (forall o, hd_error obs = Some o ->
     ob_index o = 0 /\
     ob_moving o = add (mul (lit 0.99) zero) (mul (lit 0.01) (ob_loss_sum o))) /\
  Forall (fun o => length (data (ob_batch o)) = 4 /\
                   length (label (ob_batch o)) = 4 /\
                   pad (ob_batch o) = 0 /\
                   ob_step_arg o = 4) obs.
Proof.
  intros H.
  pose proof (lr_chain (er_loop H)) as Hc.
  pose proof (lr_indices (er_loop H)) as Hi.
  rewrite length_map, (er_count H) in Hi.
  refine (conj (er_count H) (conj Hi (conj Hc (conj (lr_obs (er_loop H)) (conj _ _))))).
  - intros o Ho. destruct obs as [|o' rest]; [discriminate|].
    injection Ho as ->. destruct Hc as [Hm _].
    split; [|exact Hm].
    change (map (@ob_index F) (o :: rest)) with (ob_index o :: map (@ob_index F) rest) in Hi.
    change (seq 0 2500) with (0 :: seq 1 2499) in Hi. congruence.
  - pose proof (er_full H) as Hfull. rewrite Forall_map in Hfull.
    pose proof (lr_obs (er_loop H)) as Hok.
    rewrite Forall_forall in *. intros o Hin.
    destruct (Hfull o Hin) as (Hp & Hd & Hl).
    destruct (Hok o Hin) as (_ & Hs & _).
    unfold batch_size in *. rewrite Hs. auto.
Qed.

(** C1 (amended).  The moving loss is set to 0 at the start of every epoch.
    Each epoch takes one turn for each of the 2500 batches of the pass that
    follows its reset of the iterator, and every turn updates the moving
    loss to [0.99 * moving_loss + 0.01 * s], where [s] is the sum of the
    per-example losses of the predictions the model makes on that turn's
    batch with the parameters the turns before it left.  So after the
    first batch of each epoch the moving loss is [0.99 * 0 + 0.01 * s],
    whatever the previous epoch left; the value an epoch ends with is the
    one after its last batch, and the value the run ends with is the one
    after the last batch of the last epoch. *)
Theorem moving_loss_restarts_every_epoch fuel (g : Rng F) shuffle :
  valid_shuffle num_examples shuffle -> 2500 <= fuel ->
  exists nb1 nb',
    epoch_body fuel 0 (setup true g shuffle) = Ok nb1 /\
    epoch_body fuel 1 nb1 = Ok nb' /\
    notebook fuel g shuffle = Ok nb' /\
    trace nb' = EvReset F 0 :: map (@EvBatch F) (epoch_observations 0 (trace nb'))
                ++ EvReset F 1 :: map (@EvBatch F) (epoch_observations 1 (trace nb')) /\
    pass 2500 (reset (train_data (setup true g shuffle)))
      = Some (map (@ob_batch F) (epoch_observations 0 (trace nb'))) /\
    pass 2500 (reset (train_data nb1))
      = Some (map (@ob_batch F) (epoch_observations 1 (trace nb'))) /\
    replay_outputs (trainer (setup true g shuffle)) (net (setup true g shuffle))
        (map (@ob_batch F) (epoch_observations 0 (trace nb')))
      = Ok (map (@ob_output F) (epoch_observations 0 (trace nb'))) /\
    replay_outputs (trainer (setup true g shuffle)) (net nb1)
        (map (@ob_batch F) (epoch_observations 1 (trace nb')))
      = Ok (map (@ob_output F) (epoch_observations 1 (trace nb'))) /\
    (forall e, e < epochs ->
       length (epoch_observations e (trace nb')) = 2500 /\
       map (@ob_index F) (epoch_observations e (trace nb')) = seq 0 2500 /\
       ema_chain zero (epoch_observations e (trace nb')) /\
       Forall (obs_ok e) (epoch_observations e (trace nb')) /\
       (forall o, hd_error (epoch_observations e (trace nb')) = Some o ->
          ob_index o = 0 /\
          ob_moving o = add (mul (lit 0.99) zero) (mul (lit 0.01) (ob_loss_sum o)))) /\
    moving_loss nb1 =
      Some (last (map (@ob_moving F) (epoch_observations 0 (trace nb'))) zero) /\
    moving_loss nb' =
      Some (last (map (@ob_moving F) (epoch_observations 1 (trace nb'))) zero).
Proof.
  intros Hv Hfuel.
  destruct (notebook_turns fuel g shuffle Hv Hfuel)
    as (nb1 & nb2 & obs0 & obs1 & He0 & He1 & Hn & H0 & H1 & Ht & Hobs & Ho0 & Ho1).
  destruct (epoch_run_replay _ _ _ _ _ _ _ He0 H0) as [_ Hout0].
  destruct (epoch_run_replay _ _ _ _ _ _ _ He1 H1) as [_ Hout1].
  rewrite (lr_trainer (er_loop H0)) in Hout1.
  destruct (epoch_run_turns _ _ _ _ H0) as (Hc0 & Hi0 & Hm0 & Hk0 & Hh0 & _).
  destruct (epoch_run_turns _ _ _ _ H1) as (Hc1 & Hi1 & Hm1 & Hk1 & Hh1 & _).
  exists nb1, nb2. rewrite Ho0, Ho1.
  refine (conj He0 (conj He1 (conj Hn (conj Ht (conj (er_pass H0) (conj (er_pass H1)
            (conj Hout0 (conj Hout1 (conj _ (conj (lr_moving (er_loop H0))
               (lr_moving (er_loop H1)))))))))))).
  intros e He. unfold epochs in He.
  destruct e as [|[|e]]; [rewrite Ho0 | rewrite Ho1 | lia]; auto 10.
Qed.

(** C10.  The number of examples is an exact multiple of the batch size.
    Each of the two epochs takes one turn for each of the 2500 batches of
    its pass of the iterator; every one of these batches has exactly 4
    rows, none of them padding; and the parameters each epoch ends with
    are those that 2500 successive calls of [trainer.step], each passed the
    argument 4 and the gradients of its turn's batch, make of the
    parameters the epoch started with. *)
Theorem every_step_gets_batch_size_four fuel (g : Rng F) shuffle :
  valid_shuffle num_examples shuffle -> 2500 <= fuel ->
  num_examples mod batch_size = 0 /\
  exists nb1 nb',
    epoch_body fuel 0 (setup true g shuffle) = Ok nb1 /\
    epoch_body fuel 1 nb1 = Ok nb' /\
    notebook fuel g shuffle = Ok nb' /\
    pass 2500 (reset (train_data (setup true g shuffle)))
      = Some (map (@ob_batch F) (epoch_observations 0 (trace nb'))) /\
    pass 2500 (reset (train_data nb1))
      = Some (map (@ob_batch F) (epoch_observations 1 (trace nb'))) /\
    observations (trace nb')
      = epoch_observations 0 (trace nb') ++ epoch_observations 1 (trace nb') /\
    (forall e, e < epochs -> length (epoch_observations e (trace nb')) = 2500) /\
    Forall (fun o => length (data (ob_batch o)) = 4 /\
                     length (label (ob_batch o)) = 4 /\
                     pad (ob_batch o) = 0 /\
                     ob_step_arg o = 4)
           (observations (trace nb')) /\
    replay_with 4 (trainer (setup true g shuffle)) (net (setup true g shuffle))
        (map (@ob_batch F) (epoch_observations 0 (trace nb')))
      = Ok (net nb1) /\
    replay_with 4 (trainer (setup true g shuffle)) (net nb1)
        (map (@ob_batch F) (epoch_observations 1 (trace nb')))
      = Ok (net nb').
Proof.
  intros Hv Hfuel. split; [reflexivity|].
  destruct (notebook_turns fuel g shuffle Hv Hfuel)
    as (nb1 & nb2 & obs0 & obs1 & He0 & He1 & Hn & H0 & H1 & Ht & Hobs & Ho0 & Ho1).
  destruct (epoch_run_replay _ _ _ _ _ _ _ He0 H0) as [Hnet0 _].
  destruct (epoch_run_replay _ _ _ _ _ _ _ He1 H1) as [Hnet1 _].
  rewrite (lr_trainer (er_loop H0)) in Hnet1.
  destruct (epoch_run_turns _ _ _ _ H0) as (Hc0 & _ & _ & _ & _ & Hall0).
  destruct (epoch_run_turns _ _ _ _ H1) as (Hc1 & _ & _ & _ & _ & Hall1).
  assert (Hfour : forall obs,
            Forall (fun o => length (data (ob_batch o)) = 4 /\
                             length (label (ob_batch o)) = 4 /\
                             pad (ob_batch o) = 0 /\ ob_step_arg o = 4) obs ->
            Forall (fun b => length (data b) = 4) (map (@ob_batch F) obs)).
  { intros obs Hall. apply Forall_map. eapply Forall_impl; [|exact Hall].
    now intros o (Hd & _). }
  exists nb1, nb2. rewrite Ho0, Ho1, Hobs.
  refine (conj He0 (conj He1 (conj Hn (conj (er_pass H0) (conj (er_pass H1)
            (conj eq_refl (conj _ (conj _ (conj _ _))))))))).
  - intros e He. unfold epochs in He.
    destruct e as [|[|e]]; [rewrite Ho0 | rewrite Ho1 | lia]; assumption.
  - apply Forall_app. split; assumption.
  - rewrite (replay_with_length 4 _ _ _ (Hfour obs0 Hall0)). exact Hnet0.
  - rewrite (replay_with_length 4 _ _ _ (Hfour obs1 Hall1)). exact Hnet1.
Qed.

End RunFacts.

Lemma moving_loss_restarts_every_epoch_witness :
  valid_shuffle num_examples identity_shuffle /\ 2500 <= 2500 /\
  is_ok (notebook (AG := analytic_autograd) 2500 alternating_draws identity_shuffle) = true.
Proof.
  split; [exact identity_shuffle_valid | split; [lia|]].
  destruct (moving_loss_restarts_every_epoch (AG := analytic_autograd) 2500
              alternating_draws identity_shuffle identity_shuffle_valid (le_n 2500))
    as (nb1 & nb' & _ & _ & Hn & _).
  rewrite Hn. reflexivity.
Defined.

Lemma every_step_gets_batch_size_four_witness :
  valid_shuffle num_examples identity_shuffle /\ 2500 <= 2500 /\
  num_examples mod batch_size = 0 /\
  is_ok (notebook (AG := analytic_autograd) 2500 alternating_draws identity_shuffle) = true.
Proof.
  split; [exact identity_shuffle_valid | split; [lia|]].
  destruct (every_step_gets_batch_size_four (AG := analytic_autograd) 2500
              alternating_draws identity_shuffle identity_shuffle_valid (le_n 2500))
    as (Hmod & nb1 & nb' & _ & _ & Hn & _).
  split; [exact Hmod|]. rewrite Hn. reflexivity.
Defined.

(** * Further properties in exact arithmetic *)

Section ExactRunFacts.

Context {AG : Autograd Q}.

Local Open Scope Q_scope.

Lemma decay_pos n : 0 < decay n.
Proof. induction n as [|n IH]; cbn [decay]; lra. Qed.

Lemma decay_le_1 n : decay n <= 1.
Proof. induction n as [|n IH]; cbn [decay]; [lra|]. pose proof (decay_pos n). lra. Qed.

Lemma ema_closed (obs : list (Obs Q)) : forall m,
  ema_chain m obs ->
  last (map (@ob_moving Q) obs) m ==
    decay (length obs) * m + weighted (map (@ob_loss_sum Q) obs).
Proof.
  induction obs as [|o obs IH]; intros m H.
  - cbn. ring.
  - destruct H as [Ho Hrest]. cbn [add mul lit Q_arith] in Ho.
    cbn [map]. rewrite last_cons, (IH _ Hrest).
    cbn [length decay weighted]. rewrite length_map, Ho. ring.
Qed.

Lemma ema_chain_firstn (obs : list (Obs Q)) : forall m k,
  ema_chain m obs -> ema_chain m (firstn k obs).
Proof.
  induction obs as [|o obs IH]; intros m [|k] H; cbn [firstn ema_chain]; auto.
  destruct H as [Ho Hrest]. split; auto.
Qed.

Lemma last_firstn_nth (obs : list (Obs Q)) : forall m k o,
  nth_error obs k = Some o ->
  last (map (@ob_moving Q) (firstn (S k) obs)) m = ob_moving o.
Proof.
  induction obs as [|o' obs IH]; intros m [|k] o H; cbn [nth_error] in H;
    try discriminate.
  - injection H as ->. reflexivity.
  - change (firstn (S (S k)) (o' :: obs)) with (o' :: firstn (S k) obs).
    cbn [map]. rewrite last_cons. apply IH. exact H.
Qed.

(** X8.  In exact arithmetic the moving loss a turn leaves is the weighted
    sum of the loss sums of its epoch so far: the sum of the turn itself
    enters with weight 0.01, and every earlier one with 0.01 times 0.99 to
    the number of turns since. *)
Theorem moving_loss_closed_form fuel (g : Rng Q) shuffle :
  valid_shuffle num_examples shuffle -> (2500 <= fuel)%nat ->
  exists nb',
    notebook fuel g shuffle = Ok nb' /\
    forall e k o, (e < epochs)%nat ->
      nth_error (epoch_observations e (trace nb')) k = Some o ->
      ob_moving o ==
        weighted (map (@ob_loss_sum Q) (firstn (S k) (epoch_observations e (trace nb')))).
Proof.
  intros Hv Hfuel.
  destruct (notebook_epochs fuel g shuffle Hv Hfuel)
    as (nb1 & nb2 & obs0 & obs1 & Hn & H0 & H1 & _ & Ho0 & Ho1).
  exists nb2. split; [exact Hn|].
  assert (Hepoch : forall obs k o, ema_chain zero obs -> nth_error obs k = Some o ->
            ob_moving o == weighted (map (@ob_loss_sum Q) (firstn (S k) obs))).
  { intros obs k o Hc Hk.
    rewrite <- (last_firstn_nth obs zero k o Hk).
    rewrite (ema_closed _ _ (ema_chain_firstn obs zero (S k) Hc)).
    unfold zero. cbn [lit Q_arith]. ring. }
  intros e k o He. unfold epochs in He.
  destruct e as [|[|e]]; [rewrite Ho0 | rewrite Ho1 | lia]; apply Hepoch.
  - exact (lr_chain (er_loop H0)).
  - exact (lr_chain (er_loop H1)).
Qed.

Lemma weighted_bounds (M : Q) (ss : list Q) :
  Forall (fun s => 0 <= s <= M) ss ->
  0 <= weighted ss <= (1 - decay (length ss)) * M.
Proof.
  induction 1 as [|s ss [Hs0 HsM] _ [IH0 IHM]]; cbn [weighted length decay].
  - lra.
  - pose proof (decay_pos (length ss)) as Hd.
    assert (H1 : 0 <= decay (length ss) * s) by (apply Qmult_le_0_compat; lra).
    assert (H2 : decay (length ss) * s <= decay (length ss) * M)
      by (apply Qmult_le_l; lra).
    split.
    + setoid_replace (0.01 * decay (length ss) * s)
        with (0.01 * (decay (length ss) * s)) by ring. lra.
    + setoid_replace (0.01 * decay (length ss) * s)
        with (0.01 * (decay (length ss) * s)) by ring.
      setoid_replace ((1 - 0.99 * decay (length ss)) * M)
        with (M - 0.99 * (decay (length ss) * M)) by ring.
      setoid_replace ((1 - decay (length ss)) * M)
        with (M - decay (length ss) * M) in IHM by ring.
      lra.
Qed.

Lemma nd_sum_nonneg (v : list Q) : Forall (fun q => 0 <= q) v -> 0 <= nd_sum v.
Proof.
  unfold nd_sum, zero. cbn [lit Q_arith].
  assert (H : forall acc, 0 <= acc -> Forall (fun q => 0 <= q) v ->
                          0 <= fold_left add v acc).
  { induction v as [|q v IH]; intros acc Hacc Hv; cbn [fold_left]; [exact Hacc|].
    inversion Hv; subst. apply IH; auto. cbn [add Q_arith]. lra. }
  apply H. lra.
Qed.

Lemma loss_entries_nonneg (out lab : list Q) : Forall (fun q => 0 <= q) (loss out lab).
Proof.
  unfold loss, L2Loss. revert lab.
  induction out as [|p out IH]; intros [|l lab]; cbn [map2]; constructor; auto.
  apply squared_error_nonneg.
Qed.

(** X9.  In exact arithmetic the moving loss never leaves the range of the
    loss sums: if no loss sum of an epoch exceeds [M], then after turn [k]
    of that epoch the moving loss lies between 0 and [(1 - 0.99^(k+1)) * M],
    so below [M], and it is at most 1% of [M] after the first turn. *)
Theorem moving_loss_bounds fuel (g : Rng Q) shuffle :
  valid_shuffle num_examples shuffle -> (2500 <= fuel)%nat ->
  exists nb',
    notebook fuel g shuffle = Ok nb' /\
    forall e M, (e < epochs)%nat ->
      Forall (fun o => ob_loss_sum o <= M) (epoch_observations e (trace nb')) ->
      forall k o, nth_error (epoch_observations e (trace nb')) k = Some o ->
        0 <= ob_moving o /\ ob_moving o <= (1 - decay (S k)) * M /\
        (1 - decay (S k)) * M <= M.
Proof.
  intros Hv Hfuel.
  destruct (notebook_epochs fuel g shuffle Hv Hfuel)
    as (nb1 & nb2 & obs0 & obs1 & Hn & H0 & H1 & _ & Ho0 & Ho1).
  exists nb2. split; [exact Hn|].
  assert (Hepoch : forall e obs M k o,
            ema_chain zero obs -> Forall (obs_ok e) obs ->
            Forall (fun o => ob_loss_sum o <= M) obs ->
            nth_error obs k = Some o ->
            0 <= ob_moving o /\ ob_moving o <= (1 - decay (S k)) * M /\
            (1 - decay (S k)) * M <= M).
  { intros e obs M k o Hc Hok HM Hk.
    assert (Hss : Forall (fun s => 0 <= s <= M)
                    (map (@ob_loss_sum Q) (firstn (S k) obs))).
    { apply Forall_map, Forall_forall. intros o' Ho'. apply In_firstn in Ho'.
      rewrite Forall_forall in Hok, HM. split; [|auto].
      destruct (Hok o' Ho') as (_ & _ & _ & ->).
      apply nd_sum_nonneg, loss_entries_nonneg. }
    pose proof (weighted_bounds M _ Hss) as [Hw0 HwM].
    assert (Hlen : length (map (@ob_loss_sum Q) (firstn (S k) obs)) = S k).
    { rewrite length_map, length_firstn.
      assert (k < length obs)%nat by (apply nth_error_Some; congruence). lia. }
    rewrite Hlen in HwM.
    assert (Hmov : ob_moving o == weighted (map (@ob_loss_sum Q) (firstn (S k) obs))).
    { rewrite <- (last_firstn_nth obs zero k o Hk).
      rewrite (ema_closed _ _ (ema_chain_firstn obs zero (S k) Hc)).
      unfold zero. cbn [lit Q_arith]. ring. }
    rewrite Hmov. split; [exact Hw0|]. split; [exact HwM|].
    assert (HM0 : 0 <= M).
    { rewrite Forall_forall in Hss.
      assert (Hin : In (ob_loss_sum o) (map (@ob_loss_sum Q) (firstn (S k) obs))).
      { apply in_map. clear - Hk. revert k Hk.
        induction obs as [|o' obs IH]; intros [|k] Hk; cbn [nth_error] in Hk;
          try discriminate.
        - injection Hk as ->. now left.
        - change (firstn (S (S k)) (o' :: obs)) with (o' :: firstn (S k) obs).
          right. apply IH. exact Hk. }
      specialize (Hss _ Hin). lra. }
    pose proof (decay_pos (S k)) as Hd.
    assert (0 <= decay (S k) * M) by (apply Qmult_le_0_compat; lra).
    setoid_replace ((1 - decay (S k)) * M) with (M - decay (S k) * M) by ring. lra. }
  intros e M He HM k o Hk. unfold epochs in He.
  destruct e as [|[|e]]; [rewrite Ho0 in * | rewrite Ho1 in * | lia].
  - exact (Hepoch 0%nat obs0 M k o (lr_chain (er_loop H0)) (lr_obs (er_loop H0)) HM Hk).
  - exact (Hepoch 1%nat obs1 M k o (lr_chain (er_loop H1)) (lr_obs (er_loop H1)) HM Hk).
Qed.

Lemma forward_value {F} {AF : Arith F} (d : Dense F) w c x :
  weight d = Some w -> bias d = Some c ->
  Forall (fun row => length row = in_units d) x ->
  forward d x = Ok (map (fun row => add (dot row w) c) x).
Proof.
  intros Hw Hc Hx. unfold forward. rewrite Hw, Hc.
  assert (Hall : forallb (fun row => (length row =? in_units d)%nat) x = true).
  { apply forallb_forall. intros row Hin. rewrite Forall_forall in Hx.
    apply Nat.eqb_eq. auto. }
  now rewrite Hall.
Qed.

(** X10.  In exact arithmetic the parameters the labels are generated
    from, weight (2, -3.4) and bias 4.2, leave on every example of the
    dataset exactly the square of its noise term as loss: no parameters of
    the model can be told apart from them by a noise-free dataset, and the
    noise sets the loss they reach. *)
Theorem generating_parameters_loss (g : Rng Q) :
  exists out,
    forward true_net (make_X g) = Ok out /\
    length out = num_examples /\
    forall i, (i < num_examples)%nat ->
      nth i (loss out (make_y g)) 0 ==
        (0.01 * rng_draw g (rng_pos g + num_examples * 2 + i))
        * (0.01 * rng_draw g (rng_pos g + num_examples * 2 + i)).
Proof.
  eexists. split; [|split].
  - apply (forward_value true_net [2; -3.4] 4.2); try reflexivity.
    exact (make_X_rows g).
  - now rewrite length_map, make_X_length.
  - intros i Hi.
    rewrite loss_nth by (rewrite ?length_map, ?make_X_length, ?make_y_length; auto).
    rewrite (nth_indep _ 0 ((fun row => add (dot row [2; -3.4]) 4.2) []))
      by (rewrite length_map, make_X_length; exact Hi).
    rewrite (map_nth (fun row => add (dot row [2; -3.4]) 4.2)).
    change (@nth Q i (make_y g) 0) with (nth i (make_y g) zero).
    rewrite make_y_nth, make_X_nth by exact Hi.
    unfold squared_error, real_fn, dot, nd_sum, zero.
    cbn [map2 fold_left nth add sub mul lit Q_arith]. ring.
Qed.

End ExactRunFacts.

(** * Batch sizes that need not divide the number of rows *)

Section AnyBatchSize.

Context {F : Type}.

Implicit Types (it : NDArrayIter F) (b : Batch F).

Lemma firstn_length_app {A} (l r : list A) : firstn (length l) (l ++ r) = l.
Proof. now rewrite firstn_app, firstn_all, Nat.sub_diag, firstn_0, app_nil_r. Qed.

(** One call of [next] inside the rows: a batch of the fixed size whose
    own rows are the next slice, padded by what the slice is short. *)
Lemma next_any it bs :
  it_batch_size it = bs -> 0 < bs -> bs <= length (it_rows it) ->
  it_cursor it < length (it_rows it) ->
  exists b it',
    next it = Some (b, it') /\
    batch_rows b = firstn bs (skipn (it_cursor it) (it_rows it)) /\
    length (data b) = bs /\ length (label b) = bs /\
    pad b = bs - Nat.min bs (length (it_rows it) - it_cursor it) /\
    it_rows it' = it_rows it /\ it_batch_size it' = bs /\
    it_cursor it' = it_cursor it + bs.
Proof.
  intros Hbs Hpos Hle Hcur. unfold next. rewrite Hbs.
  destruct (Nat.ltb_spec (it_cursor it) (length (it_rows it))) as [_|]; [|lia].
  set (chunk := firstn bs (skipn (it_cursor it) (it_rows it))).
  assert (Hc : length chunk = Nat.min bs (length (it_rows it) - it_cursor it)).
  { unfold chunk. now rewrite length_firstn, length_skipn. }
  set (p := bs - length chunk).
  assert (Hp : length (firstn p (it_rows it)) = p).
  { rewrite length_firstn. unfold p. lia. }
  eexists _, _. split; [reflexivity|].
  unfold batch_rows. cbn [data label pad it_rows it_batch_size it_cursor].
  rewrite !length_map, combine_map_fst_snd, length_app, Hp.
  replace (length chunk + p - p) with (length chunk) by lia.
  rewrite firstn_length_app.
  repeat split; auto; unfold p; lia.
Qed.

(** A pass for any batch size from 1 to the number of rows. *)
Lemma pass_any bs : forall fuel it,
  it_batch_size it = bs -> 0 < bs -> bs <= length (it_rows it) ->
  length (it_rows it) - it_cursor it <= fuel ->
  exists bsl,
    pass fuel it = Some bsl /\
    concat (map (@batch_rows F) bsl) = skipn (it_cursor it) (it_rows it) /\
    Forall (fun b => length (data b) = bs /\ length (label b) = bs) bsl /\
    Forall (fun b => pad b = 0) (removelast bsl) /\
    bs * length bsl =
      (length (it_rows it) - it_cursor it) + list_sum (map (@pad F) bsl) /\
    list_sum (map (@pad F) bsl) < bs.
Proof.
  induction fuel as [|fuel IH]; intros it Hbs Hpos Hle Hfuel.
  - assert (Hn : next it = None) by (apply next_exhausted; lia).
    exists []. cbn [pass]. rewrite Hn. cbn.
    rewrite skipn_all2 by lia. repeat split; auto; lia.
  - destruct (Nat.lt_ge_cases (it_cursor it) (length (it_rows it))) as [Hlt|Hge].
    + destruct (next_any it bs Hbs Hpos Hle Hlt)
        as (b & it' & Hn & Hrows & Hd & Hl & Hp & Hr' & Hbs' & Hc').
      destruct (IH it') as (bsl & Hpass & Hcat & Hall & Hlast & Hsum & Hpad);
        try congruence; try (rewrite Hr', Hc'; lia).
      exists (b :: bsl). cbn [pass]. rewrite Hn, Hpass.
      cbn [map concat length list_sum].
      rewrite Hr', Hc' in *.
      split; [reflexivity|]. split; [|split; [|split]].
      * rewrite Hrows, Hcat.
        replace (it_cursor it + bs) with (bs + it_cursor it) by lia.
        rewrite <- skipn_skipn. apply firstn_skipn.
      * constructor; auto.
      * destruct bsl as [|b2 bsl]; [constructor|].
        change (removelast (b :: b2 :: bsl)) with (b :: removelast (b2 :: bsl)).
        constructor; [|exact Hlast].
        unfold list_sum in *. cbn [length map fold_right] in Hsum, Hpad. rewrite Hp.
        assert (bs <= bs * S (length bsl)) by nia. lia.
      * rewrite Hp. unfold list_sum in *. destruct bsl as [|b2 bsl].
        -- cbn [length map fold_right] in *. split; lia.
        -- cbn [length map fold_right] in *.
           assert (bs <= bs * S (length bsl)) by nia.
           replace (bs * S (S (length bsl))) with (bs + bs * S (length bsl)) by lia.
           split; lia.
    + assert (Hn : next it = None) by (apply next_exhausted; lia).
      exists []. cbn [pass]. rewrite Hn. cbn.
      rewrite skipn_all2 by lia. repeat split; auto; lia.
Qed.

(** X11.  For every batch size from 1 to the number of rows, dividing it
    or not, a pass from the start ends within as many calls as there are
    rows.  Every batch has exactly the batch size in rows; the rows that
    are not padding, taken batch after batch, are the rows of the iterator,
    each once and in order; only the last batch can be padded, by less than
    a batch, which makes the number of batches the number of rows divided
    by the batch size, rounded up. *)
Theorem pass_with_any_batch_size it bs :
  it_batch_size it = bs -> 0 < bs -> bs <= length (it_rows it) ->
  it_cursor it = 0 ->
  exists bsl,
    pass (length (it_rows it)) it = Some bsl /\
    concat (map (@batch_rows F) bsl) = it_rows it /\
    Forall (fun b => length (data b) = bs /\ length (label b) = bs) bsl /\
    Forall (fun b => pad b = 0) (removelast bsl) /\
    bs * length bsl = length (it_rows it) + list_sum (map (@pad F) bsl) /\
    list_sum (map (@pad F) bsl) < bs.
Proof.
  intros Hbs Hpos Hle Hcur.
  destruct (pass_any bs (length (it_rows it)) it Hbs Hpos Hle)
    as (bsl & Hp & Hcat & Hall & Hlast & Hsum & Hpad); [lia|].
  rewrite Hcur, ?skipn_0, ?Nat.sub_0_r in *.
  exists bsl. auto 10.
Qed.

End AnyBatchSize.

Section AnyBatchSizeTraining.

Context {F : Type} {AF : Arith F} {AG : Autograd F}.

(** One epoch over [n] rows in batches of any size from 1 to [n]. *)
Lemma epoch_any fuel e (nb : Notebook F) n bs :
  ready n bs nb -> 0 < bs -> bs <= n -> n <= fuel ->
  exists nb' obs,
    for_batches fuel 0 e (epoch_entry e nb) = Ok nb' /\
    ready n bs nb' /\
    trace nb' = trace nb ++ EvReset F e :: map (@EvBatch F) obs /\
    Forall (fun o => ob_step_arg o = bs /\ length (data (ob_batch o)) = bs) obs /\
    Forall (fun o => pad (ob_batch o) = 0) (removelast obs) /\
    bs * length obs = n + list_sum (map (fun o => pad (ob_batch o)) obs) /\
    list_sum (map (fun o => pad (ob_batch o)) obs) < bs /\
    pass fuel (reset (train_data nb)) = Some (map (@ob_batch F) obs) /\
    trainer nb' = trainer nb /\
    replay_with bs (trainer nb) (net nb) (map (@ob_batch F) obs) = Ok (net nb').
Proof.
  intros [Hi Hbs Hlen Hv Hfit] Hpos Hle Hfuel.
  pose proof (reset_rows (train_data nb) n Hlen Hv) as Hperm.
  assert (Hlen' : length (it_rows (reset (train_data nb))) = n)
    by (rewrite (Permutation_length Hperm); exact Hlen).
  destruct (pass_any bs fuel (reset (train_data nb)))
    as (bsl & Hp & _ & Hall & Hlast & Hsum & Hpad); auto;
    try (rewrite Hlen'; cbn [reset it_cursor]; lia).
  rewrite Hlen' in Hsum. cbn [reset it_cursor] in Hsum. rewrite Nat.sub_0_r in Hsum.
  assert (Hfits : Forall (batch_fits (in_units (net nb))) bsl).
  { apply (pass_fits _ fuel (reset (train_data nb))); auto.
    - cbn [reset it_batch_size]. lia.
    - eapply Permutation_Forall; [symmetry; exact Hperm | exact Hfit]. }
  destruct (for_batches_run e fuel bsl (epoch_entry e nb) 0 zero)
    as (nb' & obs & Hfor & Hrun & (S1 & S2 & S3 & S4) & Hend); auto.
  destruct (loop_run_replay _ _ _ _ _ _ _ _ Hfor Hrun) as [Hnet _].
  pose proof (lr_trainer Hrun) as Htr.
  cbn [epoch_entry record_event set_train_data assign_moving_loss train_data
       trainer net] in *.
  exists nb', obs. pose proof (lr_batches Hrun) as Hb.
  assert (Hsize : Forall (fun o => ob_step_arg o = bs /\ length (data (ob_batch o)) = bs) obs).
  { rewrite <- Hb in Hall. rewrite Forall_map in Hall.
    pose proof (lr_obs Hrun) as Hok. rewrite Forall_forall in *.
    intros o Ho. destruct (Hall o Ho) as [Hd _]. destruct (Hok o Ho) as (_ & Hs & _).
    split; congruence. }
  split; [exact Hfor|].
  split; [|split; [|split; [exact Hsize|split; [|split; [|split; [|split; [|split]]]]]]].
  - constructor.
    + exact (lr_net Hrun).
    + rewrite S2. exact Hbs.
    + rewrite S1. exact Hlen'.
    + rewrite S3. exact Hv.
    + rewrite S1, (lr_units Hrun). cbn.
      eapply Permutation_Forall; [symmetry; exact Hperm | exact Hfit].
  - rewrite (lr_trace Hrun). cbn. now rewrite <- app_assoc.
  - rewrite <- Hb in Hlast. clear - Hlast.
    induction obs as [|o obs IH]; [constructor|].
    destruct obs as [|o2 obs]; [constructor|].
    change (removelast (map (@ob_batch F) (o :: o2 :: obs)))
      with (ob_batch o :: removelast (map (@ob_batch F) (o2 :: obs))) in Hlast.
    change (removelast (o :: o2 :: obs)) with (o :: removelast (o2 :: obs)).
    inversion Hlast; subst. constructor; auto.
  - rewrite <- Hb, length_map, map_map in Hsum. exact Hsum.
  - rewrite <- Hb, map_map in Hpad. exact Hpad.
  - rewrite Hb. exact Hp.
  - exact Htr.
  - rewrite replay_with_length; [exact Hnet|].
    apply Forall_map. eapply Forall_impl; [|exact Hsize]. now intros o [_ Hd].
Qed.

(** X12.  Training does not depend on the batch size dividing the number
    of rows.  For a batch size from 1 to the number [n] of rows and a bound
    of at least [n] turns, both epochs complete, each with one turn for
    each batch of its pass of the iterator; every batch has as many rows as
    the batch size, and the parameters each epoch ends with are those that
    successive calls of [trainer.step], each passed the batch size and the
    gradients of its turn's batch, make of the parameters the epoch
    started with, also on a last batch that was filled up with padding
    rows; only the last turn of an epoch can have padding, by less than a
    batch, so each epoch makes [n] divided by the batch size, rounded up,
    turns. *)
Theorem training_with_any_batch_size fuel (nb : Notebook F) n bs :
  ready n bs nb -> 0 < bs -> bs <= n -> n <= fuel ->
  exists nb1 nb' obs0 obs1,
    epoch_body fuel 0 nb = Ok nb1 /\
    epoch_body fuel 1 nb1 = Ok nb' /\
    train fuel nb = Ok nb' /\
    trace nb' = trace nb ++ EvReset F 0 :: map (@EvBatch F) obs0
                ++ EvReset F 1 :: map (@EvBatch F) obs1 /\
    pass fuel (reset (train_data nb)) = Some (map (@ob_batch F) obs0) /\
    pass fuel (reset (train_data nb1)) = Some (map (@ob_batch F) obs1) /\
    replay_with bs (trainer nb) (net nb) (map (@ob_batch F) obs0) = Ok (net nb1) /\
    replay_with bs (trainer nb) (net nb1) (map (@ob_batch F) obs1) = Ok (net nb') /\
    Forall (fun o => ob_step_arg o = bs /\ length (data (ob_batch o)) = bs)
           (obs0 ++ obs1) /\
    Forall (fun o => pad (ob_batch o) = 0) (removelast obs0 ++ removelast obs1) /\
    bs * length obs0 = n + list_sum (map (fun o => pad (ob_batch o)) obs0) /\
    bs * length obs1 = n + list_sum (map (fun o => pad (ob_batch o)) obs1) /\
    list_sum (map (fun o => pad (ob_batch o)) obs0) < bs /\
    list_sum (map (fun o => pad (ob_batch o)) obs1) < bs.
Proof.
  intros Hr Hpos Hle Hfuel.
  destruct (epoch_any fuel 0 nb n bs Hr Hpos Hle Hfuel)
    as (nb1 & obs0 & H0 & Hr1 & Ht0 & Hs0 & Hl0 & Hn0 & Hp0 & Hpass0 & Htr0 & Hnet0).
  destruct (epoch_any fuel 1 nb1 n bs Hr1 Hpos Hle Hfuel)
    as (nb2 & obs1 & H1 & _ & Ht1 & Hs1 & Hl1 & Hn1 & Hp1 & Hpass1 & _ & Hnet1).
  rewrite Htr0 in Hnet1.
  exists nb1, nb2, obs0, obs1.
  rewrite <- epoch_body_entry in H0, H1.
  split; [exact H0|]. split; [exact H1|]. split.
  { unfold train, epochs. cbn [seq for_epochs]. rewrite H0.
    cbn [bind]. rewrite H1. reflexivity. }
  split.
  { rewrite Ht1, Ht0, <- app_assoc. reflexivity. }
  split; [exact Hpass0|]. split; [exact Hpass1|].
  split; [exact Hnet0|]. split; [exact Hnet1|].
  split; [apply Forall_app; auto|]. split; [apply Forall_app; auto|].
  auto.
Qed.

End AnyBatchSizeTraining.

(** ** Instances *)

Lemma training_keeps_configuration_witness :
  match train (AF := Qred_arith) (AG := reduced_autograd) 2 tiny_notebook with
  | Ok nb' => trainer nb' = trainer tiny_notebook /\
              it_resets (train_data nb') = 2 + it_resets (train_data tiny_notebook)
  | Err _ => False
  end.
Proof.
  destruct (train (AF := Qred_arith) (AG := reduced_autograd) 2 tiny_notebook)
    as [nb'|err] eqn:E.
  - destruct (training_keeps_configuration (AF := Qred_arith) (AG := reduced_autograd)
                2 tiny_notebook nb' E) as (_ & _ & Ht & _ & _ & _ & Hr & _).
    split; assumption.
  - vm_compute in E. discriminate.
Defined.

Lemma exhausted_until_reset_witness :
  match train (AF := Qred_arith) (AG := reduced_autograd) 2 tiny_notebook with
  | Ok nb' => pass 5 (train_data nb') = Some []
  | Err _ => False
  end.
Proof.
  destruct (train (AF := Qred_arith) (AG := reduced_autograd) 2 tiny_notebook)
    as [nb'|err] eqn:E.
  - exact (proj2 (exhausted_until_reset (AF := Qred_arith) (AG := reduced_autograd)
                    2 tiny_notebook nb' E 5 0 0)).
  - vm_compute in E. discriminate.
Defined.

Lemma parameters_follow_the_steps_witness :
  match train (AF := Qred_arith) (AG := reduced_autograd) 2 tiny_notebook with
  | Ok nb' => exists obs,
      observations (trace nb') = observations (trace tiny_notebook) ++ obs /\
      replay (AF := Qred_arith) (AG := reduced_autograd) (trainer tiny_notebook)
        (net tiny_notebook) (map (@ob_batch Q) obs) = Ok (net nb')
  | Err _ => False
  end.
Proof.
  destruct (train (AF := Qred_arith) (AG := reduced_autograd) 2 tiny_notebook)
    as [nb'|err] eqn:E.
  - destruct (parameters_follow_the_steps (AF := Qred_arith) (AG := reduced_autograd)
                2 tiny_notebook nb' E) as (obs & Ho & Hr & _).
    exists obs. split; assumption.
  - vm_compute in E. discriminate.
Defined.

Lemma training_on_no_data_witness :
  it_rows (train_data empty_notebook) = [] /\
  is_ok (train (AG := analytic_autograd) 0 empty_notebook) = true.
Proof.
  split; [reflexivity|].
  destruct (training_on_no_data (AG := analytic_autograd) 0 empty_notebook eq_refl)
    as (nb' & Ht & _).
  rewrite Ht. reflexivity.
Defined.

Lemma training_failures_witness :
  train (AF := Qred_arith) (AG := reduced_autograd) 1 tiny_notebook = Err OutOfFuel /\
  (OutOfFuel = OutOfFuel \/ OutOfFuel = ShapeMismatch \/ OutOfFuel = ZeroBatchSize \/
   exists name, OutOfFuel = UninitializedParameter name).
Proof.
  assert (E : train (AF := Qred_arith) (AG := reduced_autograd) 1 tiny_notebook
              = Err OutOfFuel) by (vm_compute; reflexivity).
  split; [exact E|].
  exact (training_failures (AF := Qred_arith) (AG := reduced_autograd) 1 tiny_notebook
           OutOfFuel E).
Defined.

Lemma tiny_rows_fit :
  Forall (fun r : list Q * Q => length (fst r) = 2) (it_rows (train_data tiny_notebook)).
Proof. vm_compute. repeat constructor. Qed.

Lemma training_raises_no_exception_witness :
  is_initialized (net tiny_notebook) = true /\
  0 < it_batch_size (train_data tiny_notebook) /\
  ((exists nb', train (AG := analytic_autograd) 1 tiny_notebook = Ok nb') \/
   train (AG := analytic_autograd) 1 tiny_notebook = Err OutOfFuel).
Proof.
  split; [reflexivity|]. split; [cbn; lia|].
  exact (training_raises_no_exception (AG := analytic_autograd) 1 tiny_notebook
           eq_refl (Nat.lt_0_succ 1) tiny_rows_fit).
Defined.

Lemma progress_lines_witness :
  valid_shuffle num_examples identity_shuffle /\ 2500 <= 2500 /\
  is_ok (notebook (AG := analytic_autograd) 2500 alternating_draws identity_shuffle) = true.
Proof.
  split; [exact identity_shuffle_valid | split; [lia|]].
  destruct (progress_lines (AG := analytic_autograd) 2500 alternating_draws
              identity_shuffle identity_shuffle_valid (le_n 2500)) as (nb' & Hn & _).
  rewrite Hn. reflexivity.
Defined.

Lemma moving_loss_closed_form_witness :
  valid_shuffle num_examples identity_shuffle /\ 2500 <= 2500 /\
  is_ok (notebook (AG := analytic_autograd) 2500 alternating_draws identity_shuffle) = true.
Proof.
  split; [exact identity_shuffle_valid | split; [lia|]].
  destruct (moving_loss_closed_form (AG := analytic_autograd) 2500 alternating_draws
              identity_shuffle identity_shuffle_valid (le_n 2500)) as (nb' & Hn & _).
  rewrite Hn. reflexivity.
Defined.

Lemma moving_loss_bounds_witness :
  valid_shuffle num_examples identity_shuffle /\ 2500 <= 2500 /\
  is_ok (notebook (AG := analytic_autograd) 2500 alternating_draws identity_shuffle) = true.
Proof.
  split; [exact identity_shuffle_valid | split; [lia|]].
  destruct (moving_loss_bounds (AG := analytic_autograd) 2500 alternating_draws
              identity_shuffle identity_shuffle_valid (le_n 2500)) as (nb' & Hn & _).
  rewrite Hn. reflexivity.
Defined.

Lemma generating_parameters_loss_witness :
  is_ok (forward true_net (make_X alternating_draws)) = true.
Proof.
  destruct (generating_parameters_loss alternating_draws) as (out & Hf & _).
  rewrite Hf. reflexivity.
Defined.

Lemma pass_with_any_batch_size_witness :
  it_batch_size odd_iterator = 2 /\ 0 < 2 /\ 2 <= length (it_rows odd_iterator) /\
  it_cursor odd_iterator = 0 /\
  exists bsl, pass (length (it_rows odd_iterator)) odd_iterator = Some bsl /\
              concat (map (@batch_rows Q) bsl) = it_rows odd_iterator.
Proof.
  assert (H2 : 2 <= length (it_rows odd_iterator)) by (vm_compute; lia).
  split; [reflexivity|]. split; [lia|]. split; [exact H2|]. split; [reflexivity|].
  destruct (pass_with_any_batch_size odd_iterator 2 eq_refl (Nat.lt_0_succ 1) H2 eq_refl)
    as (bsl & Hp & Hc & _).
  exists bsl. split; assumption.
Defined.

Lemma odd_notebook_ready : ready 3 2 odd_notebook.
Proof.
  constructor.
  - reflexivity.
  - reflexivity.
  - vm_compute. reflexivity.
  - intros r. apply Permutation_refl.
  - vm_compute. repeat constructor.
Qed.

Lemma training_with_any_batch_size_witness :
  ready 3 2 odd_notebook /\ 0 < 2 /\ 2 <= 3 /\ 3 <= 3 /\
  is_ok (train (AG := analytic_autograd) 3 odd_notebook) = true.
Proof.
  split; [exact odd_notebook_ready|]. split; [lia|]. split; [lia|]. split; [lia|].
  destruct (training_with_any_batch_size (AG := analytic_autograd) 3 odd_notebook 3 2
              odd_notebook_ready (Nat.lt_0_succ 1) (le_S 2 2 (le_n 2)) (le_n 3))
    as (nb1 & nb' & obs0 & obs1 & _ & _ & Ht & _).
  rewrite Ht. reflexivity.
Defined.

(** Three rows in batches of two: two turns an epoch, the second on a
    padded batch, both with step argument 2. *)
Example odd_run :
  match train (AF := Qred_arith) (AG := reduced_autograd) 3 odd_notebook with
  | Ok nb' => map (fun o => (ob_epoch o, ob_index o, ob_step_arg o, pad (ob_batch o)))
                  (observations (trace nb'))
  | Err _ => []
  end = [(0, 0, 2, 0); (0, 1, 2, 1); (1, 0, 2, 0); (1, 1, 2, 1)].
Proof. vm_compute. reflexivity. Qed.
